(** * AHP weighting and consistency engine of the room-selection frontend

    A shallow embedding of [src/utils/ahpCalculations.js] (the module
    exporting [buildComparisonMatrix], [calculateWeights],
    [calculateConsistencyRatio], [isConsistent] and [calculateAHPWeights])
    and the properties its specification states about it.

    Conventions of the embedding.
    - A JavaScript number is embedded twice.  In the main embedding it is a
      real number and arithmetic is exact: this is the algorithm the module
      implements.  The engine computes with IEEE-754 doubles, and [Binary64]
      embeds the same functions over them: there an operation rounds, a
      product can overflow to [Infinity] or underflow to 0, and [NaN]
      propagates.  A statement of the specification about the values that are
      computed is evaluated on the doubles; where it fails there, the statement
      that is proved in exact arithmetic carries the tolerance 1e-9 of the
      specification and a bound on the input under which no intermediate
      result leaves the range of the doubles.  A statement about which values
      are looked up, stored and combined holds for both embeddings alike.
    - A JavaScript array is a [list]; [a[i]] is a lookup and [a[i] = x] an
      in-place update, threaded through the loops as explicit state.
    - The [comparisons] object is a finite map from property names to
      numbers.  Every key the code looks up contains a hyphen, so no property
      inherited from [Object.prototype] is ever found.  The [weights] object
      of the result is the finite map of its own properties.
    - A [for] loop over an index range is a left fold over that range. *)

From Stdlib Require Import Reals Lra Lia.
From Stdlib Require Floats.
From stdpp Require Import gmap strings list.
From stdpp Require Import sorting.

Open Scope R_scope.

(* ===================================================================== *)
(** ** Numbers, truthiness and array access *)
(* ===================================================================== *)

#[global] Instance R_eq_dec : EqDecision R := Req_dec_T.
#[global] Instance Rlt_decision (x y : R) : Decision (x < y) := Rlt_dec x y.
#[global] Instance R_inhabited : Inhabited R := populate 0.

(** The truth value of a property read [obj[key]] in a condition.  The
    objects hold numbers: [None] is [undefined], and among the numbers only
    0 is falsy. *)
Definition truthy (v : option R) : bool :=
  match v with
  | Some x => bool_decide (x ≠ 0)
  | None => false
  end.

(** The number a truthy property read carries. *)
Definition number_of (v : option R) : R := default 0 v.

(** [a || b] where [a] is a property read and [b] a number. *)
Definition js_or (a : option R) (b : R) : R :=
  if truthy a then number_of a else b.

(** [Math.pow(x, y)], which the module only calls with the exponent [1 / n]
    for [n >= 1].  For a positive base this is the real power; the exponent
    1 returns the base, and a zero base gives zero.  (A negative base with a
    fractional exponent is [NaN] in JavaScript; the model has no such value
    and no statement below evaluates [Math_pow] there.) *)
Definition Math_pow (x y : R) : R :=
  if decide (0 < x) then Rpower x y
  else if decide (y = 1) then x
  else 0.

(** A matrix is an array of rows. *)
Abbreviation Matrix := (list (list R)).

(** [a[i]] on an array of numbers.  (Out of range JavaScript reads
    [undefined], the model 0; every read the module performs on the arrays it
    builds, and on an [n] by [n] matrix with a weight vector of length [n],
    is in range.) *)
Definition at_index (a : list R) (i : nat) : R := a !!! i.

(** [matrix[i][j]]. *)
Definition entry (m : Matrix) (i j : nat) : R :=
  at_index (default [] (m !! i)) j.

(** [matrix[i][j] = v], for [i] and [j] in range. *)
Definition set_entry (m : Matrix) (i j : nat) (v : R) : Matrix :=
  alter (fun row => <[j := v]> row) i m.

(** [a[i] = v] on an array that the write may extend.  (JavaScript leaves
    holes when [i] is past the end; the module only ever writes at
    [i = a.length], where the write appends.) *)
Definition array_store (a : list R) (i : nat) (v : R) : list R :=
  if decide (i < length a)%nat then <[i := v]> a
  else a ++ replicate (i - length a) 0 ++ [v].

(** [for (let i = lo; i < hi; i++) body]. *)
Definition for_loop {S : Type} (lo hi : nat) (body : nat -> S -> S) (s : S) : S :=
  foldl (fun st i => body i st) s (seq lo (hi - lo)).

(* ===================================================================== *)
(** ** The module *)
(* ===================================================================== *)

(** [RANDOM_INDEX] (lines 10-21): the property read [RANDOM_INDEX[n]]. *)
Definition RANDOM_INDEX (n : nat) : option R :=
  match n with
  | 1%nat => Some 0
  | 2%nat => Some 0
  | 3%nat => Some 0.58
  | 4%nat => Some 0.90
  | 5%nat => Some 1.12
  | 6%nat => Some 1.24
  | 7%nat => Some 1.32
  | 8%nat => Some 1.41
  | 9%nat => Some 1.45
  | 10%nat => Some 1.49
  | _ => None
  end.

(** [criteria[i]] inside the template literal. *)
Definition criteria_at (criteria : list string) (i : nat) : string :=
  default "undefined"%string (criteria !! i).

(** The template literal [`${a}-${b}`]. *)
Definition pair_key (a b : string) : string :=
  String.append a (String.append "-" b).

(** The body of the inner loop of [buildComparisonMatrix] (lines 38-51). *)
Definition fill_pair (criteria : list string) (comparisons : gmap string R)
    (i j : nat) (matrix : Matrix) : Matrix :=
  let key := pair_key (criteria_at criteria i) (criteria_at criteria j) in
  let reverseKey := pair_key (criteria_at criteria j) (criteria_at criteria i) in
  if truthy (comparisons !! key) then
    let matrix := set_entry matrix i j (number_of (comparisons !! key)) in
    set_entry matrix j i (1 / number_of (comparisons !! key))
  else if truthy (comparisons !! reverseKey) then
    let matrix := set_entry matrix j i (number_of (comparisons !! reverseKey)) in
    set_entry matrix i j (1 / number_of (comparisons !! reverseKey))
  else
    let matrix := set_entry matrix i j 1 in
    set_entry matrix j i 1.

(** [buildComparisonMatrix] (lines 29-56).  The matrix starts as [n] rows of
    [n] ones; the loops visit the pairs [i < j]. *)
Definition buildComparisonMatrix (criteria : list string)
    (comparisons : gmap string R) : Matrix :=
  let n := length criteria in
  let matrix := replicate n (replicate n 1) in
  for_loop 0 n (fun i matrix =>
    for_loop (i + 1) n (fun j matrix =>
      fill_pair criteria comparisons i j matrix) matrix) matrix.

(** The inner loop of [calculateWeights] (lines 69-72): [product] after the
    row [i]. *)
Definition row_product (matrix : Matrix) (n i : nat) : R :=
  for_loop 0 n (fun j product => product * entry matrix i j) 1.

(** The first loop of [calculateWeights] (lines 68-74): the array [weights]
    before it is normalized. *)
Definition geometric_means (matrix : Matrix) : list R :=
  let n := length matrix in
  for_loop 0 n (fun i weights =>
    array_store weights i (Math_pow (row_product matrix n i) (1 / INR n))) [].

(** [calculateWeights] (lines 63-79). *)
Definition calculateWeights (matrix : Matrix) : list R :=
  let weights := geometric_means matrix in
  let sum := foldl (fun acc w => acc + w) 0 weights in
  map (fun w => w / sum) weights.

(** The first loop nest of [calculateLambdaMax] (lines 89-96): the product
    of the matrix and the weights vector. *)
Definition weighted_sum (matrix : Matrix) (weights : list R) : list R :=
  let n := length matrix in
  for_loop 0 n (fun i weightedSum =>
    for_loop 0 n (fun j weightedSum =>
      <[i := at_index weightedSum i + entry matrix i j * at_index weights j]>
        weightedSum) weightedSum) (replicate n 0).

(** [calculateLambdaMax] (lines 87-105). *)
Definition calculateLambdaMax (matrix : Matrix) (weights : list R) : R :=
  let n := length matrix in
  let weightedSum := weighted_sum matrix weights in
  let lambdaMax :=
    for_loop 0 n (fun i lambdaMax =>
      lambdaMax + at_index weightedSum i / at_index weights i) 0 in
  lambdaMax / INR n.

(** [calculateCI] (lines 113-115). *)
Definition calculateCI (lambdaMax n : R) : R :=
  (lambdaMax - n) / (n - 1).

(** [calculateConsistencyRatio] (lines 123-134). *)
Definition calculateConsistencyRatio (matrix : Matrix) (weights : list R) : R :=
  let n := length matrix in
  if bool_decide (n < 3)%nat then 0
  else
    let lambdaMax := calculateLambdaMax matrix weights in
    let CI := calculateCI lambdaMax (INR n) in
    let RI := js_or (RANDOM_INDEX n) 1.49 in
    CI / RI.

(** [isConsistent] (lines 141-143). *)
Definition isConsistent (cr : R) : bool := bool_decide (cr < 0.1).

(** The object [calculateAHPWeights] returns. *)
Record AHPResult := mkAHPResult {
  result_weights : gmap string R;
  result_consistencyRatio : R;
  result_isConsistent : bool
}.

(** The assignment [weights[criterion] = w] on an object created by [{}].
    It defines an own property or replaces its value, except under the name
    [__proto__]: that name is an accessor inherited from [Object.prototype]
    whose setter ignores a number, so the object is left as it was. *)
Definition assign (weights : gmap string R) (criterion : string) (w : R)
    : gmap string R :=
  if decide (criterion = "__proto__"%string) then weights
  else <[criterion := w]> weights.

(** [criteria.forEach((criterion, index) => { weights[criterion] =
    weightArray[index] })] (lines 157-160), starting from the empty object:
    a later write to the same label replaces the earlier one. *)
Definition weights_object (criteria : list string) (weightArray : list R)
    : gmap string R :=
  foldl (fun weights '(index, criterion) =>
           assign weights criterion (at_index weightArray index))
        ∅ (zip (seq 0 (length criteria)) criteria).

(** [calculateAHPWeights] (lines 151-167). *)
Definition calculateAHPWeights (criteria : list string)
    (comparisons : gmap string R) : AHPResult :=
  let matrix := buildComparisonMatrix criteria comparisons in
  let weightArray := calculateWeights matrix in
  let cr := calculateConsistencyRatio matrix weightArray in
  let weights := weights_object criteria weightArray in
  {| result_weights := weights;
     result_consistencyRatio := cr;
     result_isConsistent := isConsistent cr |}.

(** [getSaatyInterpretation] (lines 174-187).  The property read
    [interpretations[value]] finds an entry when the number is one of the
    keys 1 to 9; every text of the table is a non-empty string, hence
    truthy. *)
Definition interpretations (value : R) : option string :=
  if decide (value = 1) then Some "Equal importance"%string
  else if decide (value = 2) then Some "Weak importance"%string
  else if decide (value = 3) then Some "Moderate importance"%string
  else if decide (value = 4) then Some "Moderate plus"%string
  else if decide (value = 5) then Some "Strong importance"%string
  else if decide (value = 6) then Some "Strong plus"%string
  else if decide (value = 7) then Some "Very strong importance"%string
  else if decide (value = 8) then Some "Very strong plus"%string
  else if decide (value = 9) then Some "Extreme importance"%string
  else None.

Definition getSaatyInterpretation (value : R) : string :=
  match interpretations value with
  | Some text => if decide (text = ""%string) then "Equal importance"%string else text
  | None => "Equal importance"%string
  end.

(** *** How a call completes

    The module contains no [throw] statement and declares no error class, and
    every operation in the bodies above is total on arrays of strings, arrays
    of numbers and objects holding numbers.  A call of an exported function
    therefore always completes normally.  [InvalidInputError] is the error the
    specification names. *)
Inductive error := InvalidInputError.

Inductive completion (A : Type) :=
  | Returns (v : A)
  | Throws (e : error).
Arguments Returns {A} v.
Arguments Throws {A} e.

Definition call_buildComparisonMatrix (criteria : list string)
    (comparisons : gmap string R) : completion Matrix :=
  Returns (buildComparisonMatrix criteria comparisons).

Definition call_calculateAHPWeights (criteria : list string)
    (comparisons : gmap string R) : completion AHPResult :=
  Returns (calculateAHPWeights criteria comparisons).

(* ===================================================================== *)
(** ** The module over IEEE-754 doubles *)
(* ===================================================================== *)

(** The same functions with the numbers of the engine: [float] is the
    binary64 format, and [+], [-], [*] and [/] below are its correctly
    rounded operations, with [Infinity], the signed zeros and [NaN].  The
    functions are those of the module line by line; only the numbers
    differ from the embedding above. *)
#[local] Set Warnings "-inexact-float".

Module Binary64.
Import PrimFloat.

(** An array length or a loop index as a number. *)
Definition number_of_nat (n : nat) : float :=
  of_uint63 (Uint63.of_Z (Z.of_nat n)).

(** The truth value of a property read in a condition: [undefined], [0],
    [-0] and [NaN] are falsy. *)
Definition truthy (v : option float) : bool :=
  match v with
  | Some x => negb (is_zero x || is_nan x)
  | None => false
  end.

(** The number a property read carries; [undefined] in arithmetic is
    [NaN]. *)
Definition number_of (v : option float) : float := default nan v.

Definition js_or (a : option float) (b : float) : float :=
  if truthy a then number_of a else b.

(** [Math.pow(base, exponent)] for the exponents the module passes:
    [1 / n] for an array length [n >= 1], a double with
    [0 < exponent <= 1].  The language standard (Number::exponentiate)
    fixes the result for a [NaN], infinite, zero or negative base; the
    exponent 1 returns the base and the base 1 returns 1.  For every other
    argument the standard asks for an implementation-approximated value,
    which the embedding leaves open: [None]. *)
Definition Math_pow (base exponent : float) : option float :=
  if is_nan exponent then Some nan
  else if negb (ltb 0 exponent && leb exponent 1) then None
  else if is_nan base then Some nan
  else if eqb exponent 1 then Some base
  else if is_infinity base then Some infinity
  else if is_zero base then Some zero
  else if ltb base 0 then Some nan
  else if eqb base 1 then Some one
  else None.

Abbreviation Matrix := (list (list float)).

(** [a[i]]; out of range the read is [undefined], [NaN] in arithmetic. *)
Definition at_index (a : list float) (i : nat) : float := default nan (a !! i).

Definition entry (m : Matrix) (i j : nat) : float :=
  at_index (default [] (m !! i)) j.

Definition set_entry (m : Matrix) (i j : nat) (v : float) : Matrix :=
  alter (fun row => <[j := v]> row) i m.

(** [RANDOM_INDEX] (lines 10-21). *)
Definition RANDOM_INDEX (n : nat) : option float :=
  match n with
  | 1%nat => Some 0%float
  | 2%nat => Some 0%float
  | 3%nat => Some 0.58%float
  | 4%nat => Some 0.90%float
  | 5%nat => Some 1.12%float
  | 6%nat => Some 1.24%float
  | 7%nat => Some 1.32%float
  | 8%nat => Some 1.41%float
  | 9%nat => Some 1.45%float
  | 10%nat => Some 1.49%float
  | _ => None
  end.

(** The body of the inner loop of [buildComparisonMatrix] (lines 38-51). *)
Definition fill_pair (criteria : list string) (comparisons : gmap string float)
    (i j : nat) (matrix : Matrix) : Matrix :=
  let key := pair_key (criteria_at criteria i) (criteria_at criteria j) in
  let reverseKey := pair_key (criteria_at criteria j) (criteria_at criteria i) in
  if truthy (comparisons !! key) then
    let matrix := set_entry matrix i j (number_of (comparisons !! key)) in
    set_entry matrix j i (1 / number_of (comparisons !! key))%float
  else if truthy (comparisons !! reverseKey) then
    let matrix := set_entry matrix j i (number_of (comparisons !! reverseKey)) in
    set_entry matrix i j (1 / number_of (comparisons !! reverseKey))%float
  else
    let matrix := set_entry matrix i j 1%float in
    set_entry matrix j i 1%float.

(** [buildComparisonMatrix] (lines 29-56). *)
Definition buildComparisonMatrix (criteria : list string)
    (comparisons : gmap string float) : Matrix :=
  let n := length criteria in
  let matrix := replicate n (replicate n 1%float) in
  for_loop 0 n (fun i matrix =>
    for_loop (i + 1) n (fun j matrix =>
      fill_pair criteria comparisons i j matrix) matrix) matrix.

(** The inner loop of [calculateWeights] (lines 69-72). *)
Definition row_product (matrix : Matrix) (n i : nat) : float :=
  for_loop 0 n (fun j product => (product * entry matrix i j)%float) 1%float.

(** The first loop of [calculateWeights] (lines 68-74); the write
    [weights[i] = ...] at [i = weights.length] appends.  The result is open
    as soon as one call of [Math.pow] is. *)
Definition geometric_means (matrix : Matrix) : option (list float) :=
  let n := length matrix in
  for_loop 0 n (fun i weights =>
    weights ← weights;
    mean ← Math_pow (row_product matrix n i) (1 / number_of_nat n)%float;
    Some (weights ++ [mean])) (Some []).

(** [calculateWeights] (lines 63-79). *)
Definition calculateWeights (matrix : Matrix) : option (list float) :=
  weights ← geometric_means matrix;
  let sum := foldl (fun acc w => (acc + w)%float) 0%float weights in
  Some (map (fun w => (w / sum)%float) weights).

(** The first loop nest of [calculateLambdaMax] (lines 89-96). *)
Definition weighted_sum (matrix : Matrix) (weights : list float) : list float :=
  let n := length matrix in
  for_loop 0 n (fun i weightedSum =>
    for_loop 0 n (fun j weightedSum =>
      <[i := (at_index weightedSum i + entry matrix i j * at_index weights j)%float]>
        weightedSum) weightedSum) (replicate n 0%float).

(** [calculateLambdaMax] (lines 87-105). *)
Definition calculateLambdaMax (matrix : Matrix) (weights : list float) : float :=
  let n := length matrix in
  let weightedSum := weighted_sum matrix weights in
  let lambdaMax :=
    for_loop 0 n (fun i lambdaMax =>
      (lambdaMax + at_index weightedSum i / at_index weights i)%float) 0%float in
  (lambdaMax / number_of_nat n)%float.

(** [calculateCI] (lines 113-115). *)
Definition calculateCI (lambdaMax n : float) : float :=
  ((lambdaMax - n) / (n - 1))%float.

(** [calculateConsistencyRatio] (lines 123-134). *)
Definition calculateConsistencyRatio (matrix : Matrix) (weights : list float)
    : float :=
  let n := length matrix in
  if bool_decide (n < 3)%nat then 0%float
  else
    let lambdaMax := calculateLambdaMax matrix weights in
    let CI := calculateCI lambdaMax (number_of_nat n) in
    let RI := js_or (RANDOM_INDEX n) 1.49%float in
    (CI / RI)%float.

(** [isConsistent] (lines 141-143). *)
Definition isConsistent (cr : float) : bool := ltb cr 0.1%float.

Record AHPResult := mkAHPResult {
  result_weights : gmap string float;
  result_consistencyRatio : float;
  result_isConsistent : bool
}.

(** The [forEach] of lines 157-160. *)
Definition weights_object (criteria : list string) (weightArray : list float)
    : gmap string float :=
  foldl (fun weights '(index, criterion) =>
           if decide (criterion = "__proto__"%string) then weights
           else <[criterion := at_index weightArray index]> weights)
        ∅ (zip (seq 0 (length criteria)) criteria).

(** [calculateAHPWeights] (lines 151-167). *)
Definition calculateAHPWeights (criteria : list string)
    (comparisons : gmap string float) : option AHPResult :=
  let matrix := buildComparisonMatrix criteria comparisons in
  weightArray ← calculateWeights matrix;
  let cr := calculateConsistencyRatio matrix weightArray in
  let weights := weights_object criteria weightArray in
  Some {| result_weights := weights;
          result_consistencyRatio := cr;
          result_isConsistent := isConsistent cr |}.

End Binary64.

(* ===================================================================== *)
(** ** The EU standards module *)
(* ===================================================================== *)

Module EuStandards.

(** [src/frontend/src/constants/euStandards.js]: the table [EU_STANDARDS]
    and the functions [getDefaultProfile], [isOptimal] and [getCategory].
    The presentation strings of a standard ([unit], [label], [icon],
    [description]) are read by no function of the module and are left
    out. *)

#[global] Instance Rle_decision (x y : R) : Decision (x <= y) := Rle_dec x y.

(** A category range [{ min, max }]; either bound may be missing. *)
Record Range := mkRange {
  range_min : option R;
  range_max : option R
}.

(** The [categories] of a standard.  [getCategory] tests each of them for
    presence before it reads it. *)
Record Categories := mkCategories {
  excellent : option Range;
  good : option Range;
  acceptable : option Range
}.

(** What [EU_STANDARDS[criterion]] may evaluate to: an object whose
    properties are read individually, a missing one reading [undefined]. *)
Record Standard := mkStandard {
  standard_min : option R;
  standard_max : option R;
  optimalMin : option R;
  optimalMax : option R;
  categories : option Categories
}.

(** The two shapes of range in the table: [{ min, max }] and [{ max }]. *)
Definition between (lo hi : R) : option Range := Some (mkRange (Some lo) (Some hi)).
Definition at_most (hi : R) : option Range := Some (mkRange None (Some hi)).

(** An entry of the table: [min], [max], [optimalMin], [optimalMax] and the
    three categories. *)
Definition standard (lo hi olo ohi : R) (e g a : option Range) : Standard :=
  mkStandard (Some lo) (Some hi) (Some olo) (Some ohi) (Some (mkCategories e g a)).

(** [EU_STANDARDS] (lines 9-115), in the order of its keys. *)
Definition EU_STANDARDS : list (string * Standard) :=
  [ ("temperature"%string,
       standard 18 26 20 24 (between 20 24) (between 19 25) (between 18 26));
    ("co2"%string,
       standard 0 1000 0 600 (at_most 400) (at_most 600) (at_most 1000));
    ("humidity"%string,
       standard 30 70 40 60 (between 40 60) (between 35 65) (between 30 70));
    ("noise"%string,
       standard 0 45 0 35 (at_most 30) (at_most 35) (at_most 45));
    ("light"%string,
       standard 200 750 300 500 (between 300 500) (between 250 600) (between 200 750));
    ("voc"%string,
       standard 0 400 0 200 (at_most 100) (at_most 200) (at_most 400));
    ("airQuality"%string,
       standard 0 100 0 50 (at_most 25) (at_most 50) (at_most 100)) ].

(** The own property [key] of the table. *)
Fixpoint own_property (table : list (string * Standard)) (key : string)
    : option Standard :=
  match table with
  | [] => None
  | (k, s) :: table => if decide (k = key) then Some s else own_property table key
  end.

(** The table is an object literal, so a property read also finds what
    every object inherits from [Object.prototype] (ECMAScript 20.1.3 and
    B.2.2): functions, and for [__proto__] the prototype itself.  Each of
    them is a truthy object without any of the properties of a standard. *)
Definition Object_prototype_properties : list string :=
  [ "constructor"; "hasOwnProperty"; "isPrototypeOf"; "propertyIsEnumerable";
    "toLocaleString"; "toString"; "valueOf"; "__proto__";
    "__defineGetter__"; "__defineSetter__"; "__lookupGetter__";
    "__lookupSetter__" ]%string.

Definition inherited_object : Standard := mkStandard None None None None None.

(** The property read [EU_STANDARDS[criterion]]; [None] is [undefined]. *)
Definition read_standard (criterion : string) : option Standard :=
  match own_property EU_STANDARDS criterion with
  | Some s => Some s
  | None =>
      if bool_decide (criterion ∈ Object_prototype_properties)
      then Some inherited_object else None
  end.

(** An entry [{ min, max }] of the default profile. *)
Record ProfileEntry := mkProfileEntry {
  profile_min : option R;
  profile_max : option R
}.

(** [getDefaultProfile] (lines 120-132): the [forEach] over
    [Object.keys(EU_STANDARDS)], from the empty object. *)
Definition getDefaultProfile : gmap string ProfileEntry :=
  foldl (fun profile key =>
           match read_standard key with
           | Some standard =>
               <[key := mkProfileEntry (optimalMin standard) (optimalMax standard)]>
                 profile
           | None => profile
           end)
        ∅ (map fst EU_STANDARDS).

(** [bound !== undefined && value < bound] and
    [bound !== undefined && value > bound]. *)
Definition below (value : R) (bound : option R) : bool :=
  match bound with Some b => bool_decide (value < b) | None => false end.

Definition above (value : R) (bound : option R) : bool :=
  match bound with Some b => bool_decide (b < value) | None => false end.

(** [isOptimal] (lines 137-145). *)
Definition isOptimal (criterion : string) (value : R) : bool :=
  match read_standard criterion with
  | None => false
  | Some standard =>
      if below value (optimalMin standard) then false
      else if above value (optimalMax standard) then false
      else true
  end.

(** [(min === undefined || value >= min) && (max === undefined || value <=
    max)]. *)
Definition in_range (range : Range) (value : R) : bool :=
  match range_min range with None => true | Some lo => bool_decide (lo <= value) end
  && match range_max range with None => true | Some hi => bool_decide (value <= hi) end.

(** One block of [getCategory]: the category is present and holds the
    value. *)
Definition in_category (category : option Range) (value : R) : bool :=
  match category with
  | Some range => in_range range value
  | None => false
  end.

(** How a call of [getCategory] completes: reading [categories.excellent]
    when [categories] is [undefined] throws a [TypeError]. *)
Inductive outcome (A : Type) :=
  | Normal (a : A)
  | TypeError.
Arguments Normal {A} a.
Arguments TypeError {A}.

(** [getCategory] (lines 150-181). *)
Definition getCategory (criterion : string) (value : R) : outcome string :=
  match read_standard criterion with
  | None => Normal "unknown"%string
  | Some standard =>
      match categories standard with
      | None => TypeError
      | Some categories =>
          if in_category (excellent categories) value then Normal "excellent"%string
          else if in_category (good categories) value then Normal "good"%string
          else if in_category (acceptable categories) value then Normal "acceptable"%string
          else Normal "poor"%string
      end
  end.

End EuStandards.

(* ===================================================================== *)
(** ** The mock API *)
(* ===================================================================== *)

Module MockApi.

(** [src/frontend/src/api/mockApi.js]: [scoreRoom] and the value
    [mockApi.evaluateRooms] resolves with.  The room data is the JSON file the
    module imports and is a parameter here; a room has the fields the API
    guide documents.  The second parameter of [scoreRoom] and the parameter
    of [evaluateRooms] are never read by the code and are left out. *)
Module Room.
Record t := mk {
  room_id : string;
  name : string;
  temperature : option R;
  co2 : option R;
  humidity : option R;
  air_quality : option R;
  seating_capacity : R;
  has_projector : bool;
  computers : R;
  has_robots : bool
}.
End Room.

(** The four partial scores of [scoreRoom] (lines 14-41). *)
Definition tempScore (temperature : R) : R :=
  if bool_decide (20 <= temperature) && bool_decide (temperature <= 24) then 1
  else if bool_decide (18 <= temperature) && bool_decide (temperature <= 26) then 0.7
  else 0.3.

Definition co2Score (co2 : R) : R :=
  if bool_decide (co2 < 600) then 1
  else if bool_decide (co2 < 1000) then 0.6
  else 0.2.

Definition humidityScore (humidity : R) : R :=
  if bool_decide (40 <= humidity) && bool_decide (humidity <= 60) then 1
  else if bool_decide (30 <= humidity) && bool_decide (humidity <= 70) then 0.7
  else 0.3.

Definition aqScore (air_quality : R) : R :=
  if bool_decide (air_quality < 50) then 1
  else if bool_decide (air_quality < 100) then 0.6
  else 0.2.

(** One guarded block of [scoreRoom]: [if (reading) { score += ...; count++ }]
    on the pair of [score] and [count]. *)
Definition add_score (reading : option R) (metricScore : R -> R)
    (state : R * nat) : R * nat :=
  if truthy reading
  then (state.1 + metricScore (number_of reading), S state.2)
  else state.

(** [scoreRoom] (lines 9-46). *)
Definition scoreRoom (room : Room.t) : R :=
  let state := (0, 0%nat) in
  let state := add_score (Room.temperature room) tempScore state in
  let state := add_score (Room.co2 room) co2Score state in
  let state := add_score (Room.humidity room) humidityScore state in
  let state := add_score (Room.air_quality room) aqScore state in
  let '(score, count) := state in
  if bool_decide (0 < count)%nat then score / INR count else 0.

(** A room with its four scores: an element of [scoredRooms]. *)
Module Scored.
Record t := mk {
  room : Room.t;
  final_score : R;
  comfort_score : R;
  health_score : R;
  usability_score : R
}.
End Scored.

(** An element of [rankings]. *)
Module Ranking.
Record t := mk {
  rank : nat;
  room_id : string;
  room_name : string;
  final_score : R;
  comfort_score : R;
  health_score : R;
  usability_score : R;
  temperature : option R;
  co2 : option R;
  humidity : option R;
  air_quality : option R;
  seating_capacity : R;
  has_projector : bool;
  computers : R;
  has_robots : bool
}.
End Ranking.

(** The object the promise resolves with. *)
Module Evaluation.
Record t := mk {
  rankings : list Ranking.t;
  weights : gmap string R;
  consistency_ratio : R;
  is_consistent : bool
}.
End Evaluation.

(** [Array.prototype.sort(compare)]: the stable sort of the array, where
    [compare a b <= 0] keeps [a] before [b].  An element is put in front of
    the first element of the sorted rest that it need not follow, so equal
    elements keep their order. *)
Fixpoint sorted_insert {A} (compare : A -> A -> R) (x : A) (l : list A) : list A :=
  match l with
  | [] => [x]
  | y :: l' =>
      if bool_decide (compare x y <= 0) then x :: y :: l'
      else y :: sorted_insert compare x l'
  end.

Definition Array_sort {A} (compare : A -> A -> R) (l : list A) : list A :=
  foldr (sorted_insert compare) [] l.

(** The first [map] of [evaluateRooms]; [random k] is the result of the
    [k]-th call of [Math.random], two calls per room. *)
Definition score_rooms (roomsData : list Room.t) (random : nat -> R)
    : list Scored.t :=
  imap (fun index room =>
          Scored.mk room
            (scoreRoom room)
            (scoreRoom room * 0.9 + random (2 * index)%nat * 0.1)
            (scoreRoom room * 0.95 + random (2 * index + 1)%nat * 0.05)
            (if Room.has_projector room then 0.9 else 0.6))
       roomsData.

(** The callback of the second [map] (lines 74-90). *)
Definition to_ranking (index : nat) (room : Scored.t) : Ranking.t :=
  Ranking.mk (index + 1)
    (Room.room_id (Scored.room room))
    (Room.name (Scored.room room))
    (Scored.final_score room)
    (Scored.comfort_score room)
    (Scored.health_score room)
    (Scored.usability_score room)
    (Room.temperature (Scored.room room))
    (Room.co2 (Scored.room room))
    (Room.humidity (Scored.room room))
    (Room.air_quality (Scored.room room))
    (Room.seating_capacity (Scored.room room))
    (Room.has_projector (Scored.room room))
    (Room.computers (Scored.room room))
    (Room.has_robots (Scored.room room)).

(** The comparator [(a, b) => b.final_score - a.final_score]. *)
Definition by_final_score (a b : Scored.t) : R :=
  Scored.final_score b - Scored.final_score a.

(** [mockApi.evaluateRooms] (lines 59-104): the value its promise resolves
    with. *)
Definition evaluateRooms (roomsData : list Room.t) (random : nat -> R)
    : Evaluation.t :=
  let scoredRooms := score_rooms roomsData random in
  let ranked :=
    imap to_ranking
      (Array_sort by_final_score scoredRooms) in
  Evaluation.mk ranked
    (<["Usability"%string := 0.25]>
       (<["Health"%string := 0.35]> {["Comfort"%string := 0.40]}))
    0.05 true.

End MockApi.

(* ===================================================================== *)
(** ** The vocabulary of the specification *)
(* ===================================================================== *)

(** *** Matrices *)

(** An [n] by [n] matrix: [n] rows of [n] numbers. *)
Definition square (n : nat) (m : Matrix) : Prop :=
  length m = n /\ forall i row, m !! i = Some row -> length row = n.

(** Reciprocity and positivity of a matrix, as the specification states
    them. *)
Definition reciprocal_matrix (n : nat) (m : Matrix) : Prop :=
  (forall i, (i < n)%nat -> entry m i i = 1) /\
  (forall i j, (i < n)%nat -> (j < n)%nat -> entry m i j * entry m j i = 1).

Definition positive_matrix (n : nat) (m : Matrix) : Prop :=
  forall i j, (i < n)%nat -> (j < n)%nat -> 0 < entry m i j.

(** *** Judgments *)

(** Every judgment the caller supplies is a positive number. *)
Definition positive_judgments (comparisons : gmap string R) : Prop :=
  forall key v, comparisons !! key = Some v -> 0 < v.

(** Every judgment the builder can look up for [criteria] is a positive
    number. *)
Definition positive_lookups (criteria : list string)
    (comparisons : gmap string R) : Prop :=
  forall i j v, (i < length criteria)%nat -> (j < length criteria)%nat ->
    comparisons !! pair_key (criteria_at criteria i) (criteria_at criteria j)
      = Some v ->
    0 < v.

(** Some supplied judgment value is zero or negative. *)
Definition has_nonpositive_judgment (comparisons : gmap string R) : Prop :=
  exists key v, comparisons !! key = Some v /\ v <= 0.

(** The two numbers the builder stores for a pair whose first label is [a]
    and whose second label is [b]: the entry of the row of [a] and the entry
    of the row of [b]. *)
Definition pair_values (comparisons : gmap string R) (a b : string) : R * R :=
  let forward := comparisons !! pair_key a b in
  let backward := comparisons !! pair_key b a in
  if truthy forward then (number_of forward, 1 / number_of forward)
  else if truthy backward then (1 / number_of backward, number_of backward)
  else (1, 1).

(** The position of a label in the criteria list: its first occurrence. *)
Definition position (criteria : list string) (a : string) : nat :=
  default 0%nat (fst <$> list_find (fun c => c = a) criteria).

(** The judgment of [a] against [b] that a call on [criteria] builds: the
    entry of its matrix in the row of [a] and the column of [b]. *)
Definition built_judgment (criteria : list string) (comparisons : gmap string R)
    (a b : string) : R :=
  entry (buildComparisonMatrix criteria comparisons)
        (position criteria a) (position criteria b).

(** The keys of [comparisons'] are those of [comparisons] renamed for the
    order [criteria']: for two criteria in the order they have in
    [criteria'], the mapping [comparisons'] resolves the pair to the judgment
    the call on [criteria] and [comparisons] builds for it. *)
Definition renamed_judgments (criteria : list string) (comparisons : gmap string R)
    (criteria' : list string) (comparisons' : gmap string R) : Prop :=
  forall i j a b, (i < j)%nat ->
    criteria' !! i = Some a -> criteria' !! j = Some b ->
    (pair_values comparisons' a b).1 = built_judgment criteria comparisons a b.

(** *** The range of the doubles *)

(** A positive number whose [n]-th power lies between 1e-300 and 1e300.
    The product of up to [n] such numbers lies between these bounds as well:
    well inside the range of the doubles, which ends near 1.8e308 and, below
    2.2e-308, loses precision and then reaches 0. *)
Definition in_double_range (n : nat) (v : R) : Prop :=
  0 < v /\ 1e-300 <= v ^ n <= 1e300.

Definition matrix_in_range (n : nat) (m : Matrix) : Prop :=
  forall i j, (i < n)%nat -> (j < n)%nat -> in_double_range n (entry m i j).

Definition judgments_in_range (n : nat) (comparisons : gmap string R) : Prop :=
  forall key v, comparisons !! key = Some v -> in_double_range n v.

Definition lookups_in_range (criteria : list string)
    (comparisons : gmap string R) : Prop :=
  forall i j v, (i < length criteria)%nat -> (j < length criteria)%nat ->
    comparisons !! pair_key (criteria_at criteria i) (criteria_at criteria j)
      = Some v ->
    in_double_range (length criteria) v.

(** Two numbers, or two absent properties, that agree within the tolerance
    of the specification. *)
Definition close (x y : R) : Prop := Rabs (x - y) <= 1e-9.

Definition close_properties (x y : option R) : Prop :=
  match x, y with
  | Some v, Some w => close v w
  | None, None => True
  | _, _ => False
  end.

(** *** Sums and products *)

(** The sum and the product of a list of numbers, and of a function over the
    indices below [n]: the [Σ] and [∏] of the specification. *)
Definition Rsum (l : list R) : R := foldr Rplus 0 l.
Definition Rprod (l : list R) : R := foldr Rmult 1 l.
Definition sum_over (n : nat) (f : nat -> R) : R := Rsum (map f (seq 0 n)).
Definition prod_over (n : nat) (f : nat -> R) : R := Rprod (map f (seq 0 n)).

(** *** Weights *)

(** The geometric mean of row [i] of a matrix of order [n], in the words of
    the specification: [gm[i] = (∏_j M[i][j])^(1/n)]. *)
Definition geometric_mean (n : nat) (m : Matrix) (i : nat) : R :=
  Rpower (prod_over n (fun j => entry m i j)) (1 / INR n).

(** The geometric mean of row [i] as [calculateWeights] computes it. *)
Definition computed_mean (m : Matrix) (i : nat) : R :=
  Math_pow (row_product m (length m) i) (1 / INR (length m)).

(** *** Consistency *)

(** The consistency ratio in the words of the specification: the product
    [Mw] of the matrix and the weight vector, [λmax = (1/n) * Σ_i (Mw[i] /
    w[i])], [CI = (λmax - n) / (n - 1)] and [CR = CI / RI(n)] with the
    table of random indices and its fallback 1.49. *)
Definition matrix_vector_product (n : nat) (m : Matrix) (w : list R) (i : nat) : R :=
  sum_over n (fun j => entry m i j * at_index w j).

Definition lambda_max (n : nat) (m : Matrix) (w : list R) : R :=
  (1 / INR n) * sum_over n (fun i => matrix_vector_product n m w i / at_index w i).

Definition consistency_index (n : nat) (lambdaMax : R) : R :=
  (lambdaMax - INR n) / (INR n - 1).

Definition random_index (n : nat) : R :=
  match n with
  | 1%nat | 2%nat => 0
  | 3%nat => 0.58
  | 4%nat => 0.90
  | 5%nat => 1.12
  | 6%nat => 1.24
  | 7%nat => 1.32
  | 8%nat => 1.41
  | 9%nat => 1.45
  | _ => 1.49
  end.

(** *** The weight and the eigenvalue estimate as functions of the labels *)

Definition label_mean (criteria : list string) (J : string -> string -> R)
    (a : string) : R :=
  Math_pow (Rprod (map (J a) criteria)) (1 / INR (length criteria)).

Definition label_weight (criteria : list string) (J : string -> string -> R)
    (a : string) : R :=
  label_mean criteria J a / Rsum (map (label_mean criteria J) criteria).

Definition label_lambda (criteria : list string) (J : string -> string -> R) : R :=
  (1 / INR (length criteria)) *
  Rsum (map (fun a =>
               Rsum (map (fun b => J a b * label_weight criteria J b) criteria)
                 / label_weight criteria J a) criteria).

(** *** Loop states *)

(** What the loops of the builder have written when the inner loop of row
    [i] is about to handle column [j]: the pairs of the earlier rows and the
    earlier columns of row [i]. *)
Definition filled (i j p q : nat) : Prop :=
  (p < i \/ (p = i /\ q < j))%nat.

(** The matrix at that point: the written pairs hold their two values and
    every other entry is still 1. *)
Definition builder_invariant (criteria : list string)
    (comparisons : gmap string R) (i j : nat) (m : Matrix) : Prop :=
  square (length criteria) m /\
  (forall p, (p < length criteria)%nat -> entry m p p = 1) /\
  (forall p q, (p < q < length criteria)%nat ->
     (filled i j p q ->
      entry m p q =
        (pair_values comparisons (criteria_at criteria p) (criteria_at criteria q)).1 /\
      entry m q p =
        (pair_values comparisons (criteria_at criteria p) (criteria_at criteria q)).2) /\
     (~ filled i j p q -> entry m p q = 1 /\ entry m q p = 1)).

(** The [forEach] of [calculateAHPWeights], from index [start] on and from
    the object [weights]. *)
Definition store_weights (weightArray : list R) (start : nat)
    (criteria : list string) (weights : gmap string R) : gmap string R :=
  foldl (fun weights '(index, criterion) =>
           assign weights criterion (at_index weightArray index))
        weights (zip (seq start (length criteria)) criteria).

(** *** Priorities and preferences *)

(** A vector of priorities [p] and the matrix of their ratios. *)
Definition ratio_matrix (n : nat) (p : list R) (m : Matrix) : Prop :=
  forall i j, (i < n)%nat -> (j < n)%nat -> entry m i j = at_index p i / at_index p j.

Definition positive_vector (n : nat) (p : list R) : Prop :=
  length p = n /\ forall i, (i < n)%nat -> 0 < at_index p i.

(** No judgment the builder can look up expresses a preference: each is
    absent, 0 or 1. *)
Definition no_preference (criteria : list string)
    (comparisons : gmap string R) : Prop :=
  forall i j v, (i < length criteria)%nat -> (j < length criteria)%nat ->
    comparisons !! pair_key (criteria_at criteria i) (criteria_at criteria j)
      = Some v ->
    v = 0 \/ v = 1.

(** The two mappings hold the same value under every key the builder can
    look up. *)
Definition same_lookups (criteria : list string)
    (comparisons comparisons' : gmap string R) : Prop :=
  forall i j, (i < length criteria)%nat -> (j < length criteria)%nat ->
    comparisons' !! pair_key (criteria_at criteria i) (criteria_at criteria j) =
    comparisons !! pair_key (criteria_at criteria i) (criteria_at criteria j).

(* ===================================================================== *)
(** ** Loops and arrays *)
(* ===================================================================== *)

Section Loops.
Context {S : Type}.
Implicit Types (body : nat -> S -> S) (s : S).

Lemma for_loop_empty lo hi body s :
  (hi <= lo)%nat -> for_loop lo hi body s = s.
Proof.
  intros H. unfold for_loop. by replace (hi - lo)%nat with 0%nat by lia.
Qed.

Lemma for_loop_last lo hi body s :
  (lo <= hi)%nat ->
  for_loop lo (hi + 1) body s = body hi (for_loop lo hi body s).
Proof.
  intros H. unfold for_loop.
  replace (hi + 1 - lo)%nat with ((hi - lo) + 1)%nat by lia.
  rewrite seq_app, foldl_app. simpl.
  by replace (lo + (hi - lo))%nat with hi by lia.
Qed.

(** The invariant rule of a counting loop. *)
Lemma for_loop_invariant (P : nat -> S -> Prop) lo hi body s :
  (lo <= hi)%nat ->
  P lo s ->
  (forall i st, (lo <= i < hi)%nat -> P i st -> P (i + 1)%nat (body i st)) ->
  P hi (for_loop lo hi body s).
Proof.
  intros Hle Hinit Hstep.
  induction hi as [|hi IH].
  - assert (lo = 0)%nat as -> by lia. by rewrite for_loop_empty.
  - destruct (decide (lo = Datatypes.S hi)) as [->|Hne].
    + by rewrite for_loop_empty.
    + replace (Datatypes.S hi) with (hi + 1)%nat by lia.
      rewrite for_loop_last by lia.
      apply Hstep; [lia|]. apply IH; [lia|].
      intros i st Hi. apply Hstep. lia.
Qed.

Lemma for_loop_ext lo hi body1 body2 s :
  (forall i st, (lo <= i < hi)%nat -> body1 i st = body2 i st) ->
  for_loop lo hi body1 s = for_loop lo hi body2 s.
Proof.
  intros Hext. destruct (decide (lo <= hi)%nat) as [Hle|Hgt].
  - apply (for_loop_invariant
             (fun i st => for_loop lo i body1 s = st) lo hi body2 s Hle).
    + by rewrite for_loop_empty.
    + intros i st Hi <-. rewrite for_loop_last by lia. apply Hext. lia.
  - rewrite !for_loop_empty by lia. done.
Qed.
End Loops.

Lemma square_replicate n x : square n (replicate n (replicate n x)).
Proof.
  split; [by rewrite length_replicate|].
  intros i row [-> _]%lookup_replicate. by rewrite length_replicate.
Qed.

Lemma square_set_entry n m i j v : square n m -> square n (set_entry m i j v).
Proof.
  intros [Hlen Hrows]. unfold set_entry. split; [by rewrite length_alter|].
  intros k row. rewrite list_lookup_alter. case_decide as Hk.
  - subst k. destruct (m !! i) as [r|] eqn:Hr; simpl; [|done].
    intros [= <-]. rewrite length_insert. eauto.
  - eauto.
Qed.

Lemma entry_set_entry n m i j v p q :
  square n m -> (i < n)%nat -> (j < n)%nat ->
  entry (set_entry m i j v) p q =
    if decide (p = i /\ q = j) then v else entry m p q.
Proof.
  intros [Hlen Hrows] Hi Hj. unfold entry, set_entry, at_index.
  rewrite list_lookup_alter.
  destruct (decide (i = p)) as [->|Hne].
  - destruct (m !! p) as [r|] eqn:Hr; simpl.
    + destruct (decide (q = j)) as [->|Hq].
      * rewrite list_lookup_total_insert_eq by (erewrite Hrows; eauto).
        by rewrite decide_True.
      * rewrite list_lookup_total_insert_ne by done.
        rewrite decide_False by tauto. done.
    + apply lookup_ge_None in Hr. lia.
  - rewrite decide_False by (intros [? ?]; congruence). done.
Qed.

Lemma entry_replicate n x i j :
  (i < n)%nat -> (j < n)%nat -> entry (replicate n (replicate n x)) i j = x.
Proof.
  intros Hi Hj. unfold entry, at_index.
  rewrite lookup_replicate_2 by done. simpl.
  by rewrite lookup_total_replicate_2.
Qed.

(* ===================================================================== *)
(** ** The statements of the specification on the doubles *)
(* ===================================================================== *)

(** Where the specification states a property of the values the module
    computes for every positive input, the doubles decide.  The inputs below
    reach [Math.pow] with a base of [Infinity], 0 or 1 only, where its result
    is fixed. *)
Section Doubles.
Import PrimFloat.

(** Three judgments far off the scale: [A-B] and [A-C] are 2^-600,
    [B-C] is 2^600. *)
Let extreme_judgments : gmap string float :=
  <["A-B"%string := 0x1p-600%float]>
    (<["A-C"%string := 0x1p-600%float]> {["B-C"%string := 0x1p600%float]}).

(** C1, as the specification states it, fails.  Every entry of the matrix is
    the positive number 1e200.  A row product is 1e200 * 1e200, which
    overflows to [Infinity]; its square root is [Infinity], so is the sum of
    the two, and each weight is [Infinity / Infinity = NaN]: no weight is
    [>= 0], and the weights do not sum to 1 within 1e-9. *)
Lemma overflowing_row_product_gives_NaN_weights :
  let m := [[1e200; 1e200]; [1e200; 1e200]]%float in
  Forall (Forall (fun x => ltb 0 x = true)) m /\
  Binary64.row_product m 2 0 = infinity /\
  Binary64.calculateWeights m = Some [nan; nan] /\
  leb 0 nan = false /\
  leb (abs (0 + nan + nan - 1)) 1e-9 = false.
Proof.
intros m. split; [by repeat constructor|].
repeat split; vm_compute; reflexivity.
Qed.

(** C2, as the specification states it, fails.  The judgment [A-B] is the
    positive subnormal number 1e-320; its reciprocal overflows to
    [Infinity], and the product of the two entries of the pair is
    [Infinity], not 1 within 1e-9. *)
Lemma subnormal_judgment_has_infinite_reciprocal :
  let M := Binary64.buildComparisonMatrix ["A"; "B"]%string
             {["A-B"%string := 1e-320%float]} in
  ltb 0 1e-320 = true /\
  M = [[1; 1e-320]; [infinity; 1]]%float /\
  (Binary64.entry M 0 1 * Binary64.entry M 1 0)%float = infinity /\
  leb (abs (Binary64.entry M 0 1 * Binary64.entry M 1 0 - 1)) 1e-9 = false.
Proof.
intros M. repeat split; vm_compute; reflexivity.
Qed.

(** C7, as the specification states it, fails.  For seven criteria without
    any judgment the matrix holds ones, every weight is [1 / 7], and the
    rounding of the seven sums of [calculateLambdaMax] leaves an eigenvalue
    estimate just below 7: the consistency ratio is negative, about
    -1.12e-16.  With the judgments far off the scale a row product overflows
    and the consistency ratio is [NaN]. *)
Lemma rounding_makes_consistency_ratio_negative :
  let result :=
    Binary64.calculateAHPWeights ["A"; "B"; "C"; "D"; "E"; "F"; "G"]%string ∅ in
  Binary64.result_consistencyRatio <$> result
    = Some (-1.1214373986112691e-16)%float /\
  ltb (-1.1214373986112691e-16) 0 = true /\
  is_nan <$> (Binary64.result_consistencyRatio <$>
     Binary64.calculateAHPWeights ["A"; "B"; "C"]%string extreme_judgments)
    = Some true.
Proof.
intros result. repeat split; vm_compute; reflexivity.
Qed.

(** C8, as the specification states it, fails.  Seven criteria with the
    judgments [A-B = 2], [A-C = 1/2] and [B-C = 2], and the same criteria in
    the order C, D, B, E, F, A, G with every key renamed for that order:
    [B-A = 1/2], [C-A = 2] and [C-B = 1/2], reciprocals that the doubles hold
    exactly, so that the two matrices have the same entries, permuted.  All
    weights are [1 / 7] in both calls, and the sums of [calculateLambdaMax]
    run over the same numbers in another order: the two consistency ratios
    differ in their last digits.  With the judgments far off the scale,
    renamed in the same way, the weight of [B] is [NaN] in both orders, which
    is no value that equals itself. *)
Lemma order_changes_consistency_ratio :
  let criteria := ["A"; "B"; "C"; "D"; "E"; "F"; "G"]%string in
  let comparisons : gmap string float :=
    <["A-B"%string := 2%float]>
      (<["A-C"%string := 0.5%float]> {["B-C"%string := 2%float]}) in
  let criteria' := ["C"; "D"; "B"; "E"; "F"; "A"; "G"]%string in
  let comparisons' : gmap string float :=
    <["B-A"%string := 0.5%float]>
      (<["C-A"%string := 2%float]> {["C-B"%string := 0.5%float]}) in
  let extreme_judgments' : gmap string float :=
    <["B-A"%string := 0x1p600%float]>
      (<["C-A"%string := 0x1p600%float]> {["C-B"%string := 0x1p-600%float]}) in
  criteria ≡ₚ criteria' /\
  (1 / 2 = 0.5 /\ 1 / 0.5 = 2 /\ 1 / 0x1p-600 = 0x1p600)%float /\
  Binary64.result_consistencyRatio <$>
    Binary64.calculateAHPWeights criteria comparisons
    = Some 0.02705627705627696%float /\
  Binary64.result_consistencyRatio <$>
    Binary64.calculateAHPWeights criteria' comparisons'
    = Some 0.02705627705627707%float /\
  eqb 0.02705627705627696 0.02705627705627707 = false /\
  (Binary64.calculateAHPWeights ["A"; "B"; "C"]%string extreme_judgments
     ≫= fun result => Binary64.result_weights result !! "B"%string) = Some nan /\
  (Binary64.calculateAHPWeights ["C"; "B"; "A"]%string extreme_judgments'
     ≫= fun result => Binary64.result_weights result !! "B"%string) = Some nan /\
  eqb nan nan = false.
Proof.
intros criteria comparisons criteria' comparisons' extreme_judgments'.
split; [solve_Permutation|].
repeat split; vm_compute; reflexivity.
Qed.

(** C9, as the specification states it, fails.  The three judgments far off
    the scale are positive.  The row product of [A] is 2^-600 * 2^-600, which
    underflows to 0, that of [B] overflows to [Infinity] and that of [C] is 1:
    the weights are 0, [NaN] and 0, and [calculateLambdaMax] divides by the
    weight 0. *)
Lemma underflowing_row_product_gives_zero_weight :
  let M := Binary64.buildComparisonMatrix ["A"; "B"; "C"]%string
             extreme_judgments in
  ltb 0 0x1p-600 = true /\ ltb 0 0x1p600 = true /\
  Binary64.row_product M 3 0 = 0%float /\
  Binary64.calculateWeights M = Some [0; nan; 0]%float /\
  ltb 0 0 = false.
Proof.
intros M. repeat split; vm_compute; reflexivity.
Qed.
End Doubles.

(* ===================================================================== *)
(** ** The comparison matrix builder *)
(* ===================================================================== *)

Section Builder.
Variable criteria : list string.
Variable comparisons : gmap string R.

Let n := length criteria.
Let values (p q : nat) : R * R :=
  pair_values comparisons (criteria_at criteria p) (criteria_at criteria q).

Lemma square_fill_pair m i j :
  square n m -> square n (fill_pair criteria comparisons i j m).
Proof.
  intros Hm. unfold fill_pair.
  repeat case_match; by do 2 apply square_set_entry.
Qed.

Lemma entry_fill_pair m i j p q :
  square n m -> (i < j < n)%nat ->
  entry (fill_pair criteria comparisons i j m) p q =
    if decide (p = i /\ q = j) then (values i j).1
    else if decide (p = j /\ q = i) then (values i j).2
    else entry m p q.
Proof.
  intros Hm Hij. unfold fill_pair, values, pair_values.
  repeat case_match; simpl;
    rewrite !(entry_set_entry n) by (try apply square_set_entry; done || lia);
    repeat case_decide; done || lia.
Qed.

Lemma builder_invariant_step i j m :
  (i < j < n)%nat ->
  builder_invariant criteria comparisons i j m ->
  builder_invariant criteria comparisons i (j + 1) (fill_pair criteria comparisons i j m).
Proof.
  intros Hij (Hsq & Hdiag & Hpairs). split; [by apply square_fill_pair|]. split.
  - intros p Hp. rewrite entry_fill_pair by done.
    repeat case_decide; try lia. by apply Hdiag.
  - intros p q Hpq. rewrite !entry_fill_pair by done.
    destruct (Hpairs p q Hpq) as [Hyes Hno]. unfold filled in *.
    destruct (decide (p = i /\ q = j)) as [[-> ->]|Hne].
    + rewrite decide_False by lia. rewrite decide_True by done.
      split; [done|lia].
    + rewrite (decide_False (P := q = i /\ p = j)) by lia.
      rewrite (decide_False (P := p = j /\ q = i)) by lia.
      rewrite (decide_False (P := q = j /\ p = i)) by tauto.
      split; intros H; [apply Hyes|apply Hno]; lia.
Qed.

Lemma builder_invariant_row i m :
  (i < n)%nat ->
  builder_invariant criteria comparisons i (i + 1) m ->
  builder_invariant criteria comparisons (i + 1) (i + 1 + 1)
    (for_loop (i + 1) n (fun j matrix =>
       fill_pair criteria comparisons i j matrix) m).
Proof.
  intros Hi Hinv.
  assert (builder_invariant criteria comparisons i n
    (for_loop (i + 1) n (fun j matrix =>
       fill_pair criteria comparisons i j matrix) m)) as (Hsq & Hdiag & Hpairs).
  { apply (for_loop_invariant (fun j st => builder_invariant criteria comparisons i j st));
      [lia|done|].
    intros j st Hj. apply builder_invariant_step. lia. }
  split; [done|]. split; [done|].
  intros p q Hpq. destruct (Hpairs p q Hpq) as [Hyes Hno]. unfold filled in *.
  split; intros H; [apply Hyes|apply Hno]; lia.
Qed.

Lemma builder_invariant_final :
  builder_invariant criteria comparisons n (n + 1) (buildComparisonMatrix criteria comparisons).
Proof.
  unfold buildComparisonMatrix. fold n.
  apply (for_loop_invariant (fun i st => builder_invariant criteria comparisons i (i + 1) st));
    [lia| |].
  - split; [apply square_replicate|]. split.
    + intros p Hp. apply entry_replicate; lia.
    + intros p q Hpq. unfold filled. split; [lia|].
      intros _. split; apply entry_replicate; lia.
  - intros i st Hi Hinv. apply builder_invariant_row; [lia|done].
Qed.

Lemma buildComparisonMatrix_square :
  square n (buildComparisonMatrix criteria comparisons).
Proof. apply builder_invariant_final. Qed.

Lemma buildComparisonMatrix_diagonal p :
  (p < n)%nat -> entry (buildComparisonMatrix criteria comparisons) p p = 1.
Proof. apply builder_invariant_final. Qed.

Lemma buildComparisonMatrix_pair p q :
  (p < q < n)%nat ->
  entry (buildComparisonMatrix criteria comparisons) p q = (values p q).1 /\
  entry (buildComparisonMatrix criteria comparisons) q p = (values p q).2.
Proof.
  intros Hpq. destruct builder_invariant_final as (_ & _ & Hpairs).
  apply Hpairs; [done|]. unfold filled. lia.
Qed.
End Builder.

Lemma positive_judgments_lookups criteria comparisons :
  positive_judgments comparisons -> positive_lookups criteria comparisons.
Proof. intros Hpos i j v _ _. apply Hpos. Qed.

Lemma truthy_true v : truthy v = true <-> exists x, v = Some x /\ x <> 0.
Proof.
destruct v as [x|]; simpl.
- rewrite bool_decide_eq_true. split.
  + intros Hx. by exists x.
  + by intros (y & [= <-] & Hy).
- split; [done|]. by intros (y & [=] & _).
Qed.

Lemma truthy_positive comparisons key :
  positive_judgments comparisons ->
  truthy (comparisons !! key) = true <-> is_Some (comparisons !! key).
Proof.
intros Hpos. rewrite truthy_true. split.
- intros (x & -> & _). eauto.
- intros [x Hx]. exists x. split; [done|]. apply Hpos in Hx. lra.
Qed.

Lemma pair_values_reciprocal comparisons a b :
  (pair_values comparisons a b).1 * (pair_values comparisons a b).2 = 1.
Proof.
unfold pair_values.
destruct (truthy (comparisons !! pair_key a b)) eqn:Hf;
  [|destruct (truthy (comparisons !! pair_key b a)) eqn:Hb]; simpl.
- apply truthy_true in Hf as (x & -> & Hx). simpl. by field.
- apply truthy_true in Hb as (x & -> & Hx). simpl. by field.
- lra.
Qed.

Lemma pair_values_positive comparisons a b :
  (forall v, comparisons !! pair_key a b = Some v -> 0 < v) ->
  (forall v, comparisons !! pair_key b a = Some v -> 0 < v) ->
  0 < (pair_values comparisons a b).1 /\ 0 < (pair_values comparisons a b).2.
Proof.
intros Hab Hba. unfold pair_values.
destruct (truthy (comparisons !! pair_key a b)) eqn:Hf;
  [|destruct (truthy (comparisons !! pair_key b a)) eqn:Hb]; simpl.
- apply truthy_true in Hf as (x & Hx & _). rewrite Hx. simpl.
  apply Hab in Hx. split; [done|]. by apply Rdiv_lt_0_compat; [lra|].
- apply truthy_true in Hb as (x & Hx & _). rewrite Hx. simpl.
  apply Hba in Hx. split; [|done]. by apply Rdiv_lt_0_compat; [lra|].
- lra.
Qed.

(** Every entry of the built matrix, by position. *)
Lemma buildComparisonMatrix_entry criteria comparisons i j :
  (i < length criteria)%nat -> (j < length criteria)%nat ->
  entry (buildComparisonMatrix criteria comparisons) i j =
    if decide (i = j) then 1
    else if decide (i < j)%nat
    then (pair_values comparisons (criteria_at criteria i) (criteria_at criteria j)).1
    else (pair_values comparisons (criteria_at criteria j) (criteria_at criteria i)).2.
Proof.
intros Hi Hj. case_decide as Heq.
- subst j. by apply buildComparisonMatrix_diagonal.
- case_decide.
  + by apply buildComparisonMatrix_pair.
  + apply buildComparisonMatrix_pair. lia.
Qed.

Lemma buildComparisonMatrix_reciprocal criteria comparisons :
  reciprocal_matrix (length criteria) (buildComparisonMatrix criteria comparisons).
Proof.
split.
- intros i Hi. by apply buildComparisonMatrix_diagonal.
- intros i j Hi Hj. rewrite !buildComparisonMatrix_entry by done.
  destruct (decide (i = j)) as [->|Hne].
  + rewrite decide_True by done. lra.
  + rewrite (decide_False (P := j = i)) by congruence.
    destruct (decide (i < j)%nat).
    * rewrite decide_False by lia. apply pair_values_reciprocal.
    * rewrite decide_True by lia. rewrite Rmult_comm. apply pair_values_reciprocal.
Qed.

Lemma buildComparisonMatrix_positive criteria comparisons :
  positive_lookups criteria comparisons ->
  positive_matrix (length criteria) (buildComparisonMatrix criteria comparisons).
Proof.
intros Hpos i j Hi Hj. rewrite buildComparisonMatrix_entry by done.
repeat case_decide; [lra| |];
  apply pair_values_positive; intros v; by apply Hpos.
Qed.

Lemma judgments_in_range_positive n comparisons :
  judgments_in_range n comparisons -> positive_judgments comparisons.
Proof. intros Hrange key v Hv. by destruct (Hrange key v Hv). Qed.

(** C2, amended.  For every criteria list and every judgment mapping with
    values between 1e-300 and 1e300, [buildComparisonMatrix] returns an [n] by
    [n] matrix whose diagonal is 1, whose entries are strictly positive, and
    in which [M[i][j] * M[j][i]] is 1 within 1e-9 for all [i], [j].  An
    off-diagonal pair is a single looked-up value and its reciprocal: the
    forward key when it is present, else the reverse key, and a pair with no
    judgment in either direction is 1 both ways. *)
Theorem buildComparisonMatrix_reciprocal_by_construction
    (criteria : list string) (comparisons : gmap string R) :
  judgments_in_range 1 comparisons ->
  let n := length criteria in
  let M := buildComparisonMatrix criteria comparisons in
  square n M /\
  (forall i, (i < n)%nat -> entry M i i = 1) /\
  (forall i j, (i < n)%nat -> (j < n)%nat ->
     Rabs (entry M i j * entry M j i - 1) <= 1e-9) /\
  (forall i j, (i < n)%nat -> (j < n)%nat -> 0 < entry M i j) /\
  (forall i j, (i < j < n)%nat ->
     match comparisons !! pair_key (criteria_at criteria i) (criteria_at criteria j),
           comparisons !! pair_key (criteria_at criteria j) (criteria_at criteria i) with
     | Some v, _ => entry M i j = v /\ entry M j i = 1 / v
     | None, Some v => entry M j i = v /\ entry M i j = 1 / v
     | None, None => entry M i j = 1 /\ entry M j i = 1
     end).
Proof.
intros Hrange n M.
pose proof (judgments_in_range_positive _ _ Hrange) as Hpos.
split; [apply buildComparisonMatrix_square|].
split; [apply buildComparisonMatrix_reciprocal|].
split; [|split; [by apply buildComparisonMatrix_positive,
                             positive_judgments_lookups|]].
- intros i j Hi Hj.
  pose proof (proj2 (buildComparisonMatrix_reciprocal criteria comparisons) i j Hi Hj) as H.
  fold M in H. rewrite H.
  replace (1 - 1) with 0 by lra. rewrite Rabs_R0. lra.
- intros i j Hij.
  destruct (buildComparisonMatrix_pair criteria comparisons i j Hij) as [H1 H2].
  fold M in H1, H2. rewrite H1, H2. unfold pair_values.
  pose proof (truthy_positive comparisons
    (pair_key (criteria_at criteria i) (criteria_at criteria j)) Hpos) as Hf.
  pose proof (truthy_positive comparisons
    (pair_key (criteria_at criteria j) (criteria_at criteria i)) Hpos) as Hb.
  destruct (comparisons !! pair_key (criteria_at criteria i) (criteria_at criteria j))
    as [v|] eqn:Ef.
  + rewrite (proj2 Hf) by eauto. done.
  + simpl.
    destruct (comparisons !! pair_key (criteria_at criteria j) (criteria_at criteria i))
      as [v|] eqn:Eb.
    * rewrite (proj2 Hb) by eauto. done.
    * done.
Qed.

(* ===================================================================== *)
(** ** Sums and products *)
(* ===================================================================== *)

Lemma Rsum_app l1 l2 : Rsum (l1 ++ l2) = Rsum l1 + Rsum l2.
Proof. induction l1 as [|x l1 IH]; simpl; [|rewrite IH]; lra. Qed.

Lemma Rprod_app l1 l2 : Rprod (l1 ++ l2) = Rprod l1 * Rprod l2.
Proof. induction l1 as [|x l1 IH]; simpl; [|rewrite IH]; lra. Qed.

Lemma sum_over_S n f : sum_over (n + 1) f = sum_over n f + f n.
Proof.
unfold sum_over. rewrite seq_app, map_app, Rsum_app. simpl. lra.
Qed.

Lemma prod_over_S n f : prod_over (n + 1) f = prod_over n f * f n.
Proof.
unfold prod_over. rewrite seq_app, map_app, Rprod_app. simpl. lra.
Qed.

Lemma sum_over_ext n f g :
  (forall i, (i < n)%nat -> f i = g i) -> sum_over n f = sum_over n g.
Proof.
intros H. unfold sum_over. f_equal. apply map_ext_in.
intros i Hi%in_seq. apply H. lia.
Qed.

Lemma prod_over_ext n f g :
  (forall i, (i < n)%nat -> f i = g i) -> prod_over n f = prod_over n g.
Proof.
intros H. unfold prod_over. f_equal. apply map_ext_in.
intros i Hi%in_seq. apply H. lia.
Qed.

Lemma foldl_Rplus_Rsum l a : foldl (fun acc w => acc + w) a l = a + Rsum l.
Proof.
revert a. induction l as [|x l IH]; intros a; simpl; [lra|].
rewrite IH. lra.
Qed.

Lemma Rsum_map_div l s : Rsum (map (fun w => w / s) l) = Rsum l / s.
Proof.
induction l as [|x l IH]; simpl; [|rewrite IH]; unfold Rdiv; lra.
Qed.

Lemma sum_over_le n f g :
  (forall i, (i < n)%nat -> f i <= g i) -> sum_over n f <= sum_over n g.
Proof.
intros H. induction n as [|n IH].
- unfold sum_over. simpl. lra.
- replace (S n) with (n + 1)%nat by lia. rewrite !sum_over_S.
  apply Rplus_le_compat; [apply IH; intros; apply H; lia|apply H; lia].
Qed.

Lemma sum_over_const n c : sum_over n (fun _ => c) = INR n * c.
Proof.
induction n as [|n IH].
- unfold sum_over. simpl. lra.
- replace (S n) with (n + 1)%nat at 1 by lia. rewrite sum_over_S, IH, S_INR. lra.
Qed.

Lemma sum_over_plus n f g :
  sum_over n (fun i => f i + g i) = sum_over n f + sum_over n g.
Proof.
induction n as [|n IH].
- unfold sum_over. simpl. lra.
- replace (S n) with (n + 1)%nat by lia. rewrite !sum_over_S, IH. lra.
Qed.

Lemma sum_over_swap n k f :
  sum_over n (fun i => sum_over k (fun j => f i j)) =
  sum_over k (fun j => sum_over n (fun i => f i j)).
Proof.
induction n as [|n IH].
- rewrite (sum_over_ext k _ (fun _ => 0)) by reflexivity.
  rewrite sum_over_const. unfold sum_over. simpl. lra.
- replace (S n) with (n + 1)%nat by lia. rewrite sum_over_S, IH.
  rewrite <- sum_over_plus. apply sum_over_ext. intros j _.
  by rewrite sum_over_S.
Qed.

Lemma sum_over_positive n f :
  (1 <= n)%nat -> (forall i, (i < n)%nat -> 0 < f i) -> 0 < sum_over n f.
Proof.
intros Hn Hf. induction n as [|n IH]; [lia|].
replace (S n) with (n + 1)%nat by lia. rewrite sum_over_S.
assert (0 < f n) by (apply Hf; lia).
destruct (decide (n = 0%nat)) as [->|Hne].
- unfold sum_over. simpl. lra.
- assert (0 < sum_over n f); [|lra]. apply IH; [lia|]. intros; apply Hf; lia.
Qed.

Lemma prod_over_positive n f :
  (forall i, (i < n)%nat -> 0 < f i) -> 0 < prod_over n f.
Proof.
intros Hf. induction n as [|n IH].
- unfold prod_over. simpl. lra.
- replace (S n) with (n + 1)%nat by lia. rewrite prod_over_S.
  apply Rmult_lt_0_compat; [apply IH; intros; apply Hf; lia|apply Hf; lia].
Qed.

(* ===================================================================== *)
(** ** The weight calculator *)
(* ===================================================================== *)

Lemma row_product_prod_over m n i :
  row_product m n i = prod_over n (fun j => entry m i j).
Proof.
unfold row_product.
apply (for_loop_invariant
         (fun j product => product = prod_over j (fun j => entry m i j)));
  [lia|done|].
intros j product _ ->. by rewrite prod_over_S.
Qed.

Lemma geometric_means_map m :
  geometric_means m = map (computed_mean m) (seq 0 (length m)).
Proof.
unfold geometric_means.
apply (for_loop_invariant
         (fun i weights => weights = map (computed_mean m) (seq 0 i)));
  [lia|done|].
intros i weights _ ->. unfold array_store.
rewrite length_map, length_seq, decide_False by lia.
replace (i - i)%nat with 0%nat by lia. simpl.
by rewrite seq_app, map_app.
Qed.

Lemma calculateWeights_map m :
  calculateWeights m =
    map (fun i => computed_mean m i / sum_over (length m) (computed_mean m))
        (seq 0 (length m)).
Proof.
unfold calculateWeights. rewrite geometric_means_map.
rewrite foldl_Rplus_Rsum, Rplus_0_l, map_map. done.
Qed.

Lemma length_calculateWeights m : length (calculateWeights m) = length m.
Proof. by rewrite calculateWeights_map, length_map, length_seq. Qed.

Lemma at_index_calculateWeights m i :
  (i < length m)%nat ->
  at_index (calculateWeights m) i =
    computed_mean m i / sum_over (length m) (computed_mean m).
Proof.
intros Hi. unfold at_index. apply list_lookup_total_correct.
rewrite calculateWeights_map, list_lookup_fmap, lookup_seq_lt by done. done.
Qed.

Lemma computed_mean_positive n m i :
  length m = n -> positive_matrix n m -> (i < n)%nat ->
  computed_mean m i = geometric_mean n m i /\ 0 < computed_mean m i.
Proof.
intros Hlen Hpos Hi. unfold computed_mean, geometric_mean, Math_pow.
rewrite Hlen, row_product_prod_over.
assert (0 < prod_over n (fun j => entry m i j)) as Hprod.
{ apply prod_over_positive. intros j Hj. by apply Hpos. }
rewrite decide_True by done. split; [done|]. unfold Rpower. apply exp_pos.
Qed.

(** The square root of a square, as [Math.pow(x * x, 1 / 2)]. *)
Lemma Rpower_square_half x e : 0 < x -> e = / 2 -> Rpower (x * x) e = x.
Proof.
intros Hx ->. rewrite Rpower_sqrt by (by apply Rmult_lt_0_compat).
apply sqrt_square. lra.
Qed.

Lemma geometric_mean_positive n m i : 0 < geometric_mean n m i.
Proof. unfold geometric_mean, Rpower. apply exp_pos. Qed.

Lemma calculateWeights_positive_matrix n m :
  length m = n -> positive_matrix n m ->
  calculateWeights m =
    map (fun i => geometric_mean n m i / sum_over n (geometric_mean n m))
        (seq 0 n).
Proof.
intros Hlen Hpos. rewrite calculateWeights_map, Hlen.
rewrite (sum_over_ext n (computed_mean m) (geometric_mean n m)).
- apply map_ext_in. intros i Hi%in_seq.
  by rewrite (proj1 (computed_mean_positive n m i Hlen Hpos ltac:(lia))).
- intros i Hi. by apply computed_mean_positive.
Qed.

(** In exact arithmetic the weights of a matrix with positive entries are
    the row geometric means divided by their sum, and they sum to 1. *)
Lemma calculateWeights_sum_one (n : nat) (m : Matrix) :
  (1 <= n)%nat -> square n m -> positive_matrix n m ->
  calculateWeights m =
    map (fun i => geometric_mean n m i / sum_over n (geometric_mean n m))
        (seq 0 n) /\
  Forall (fun w => 0 <= w) (calculateWeights m) /\
  Rsum (calculateWeights m) = 1 /\
  (n = 1%nat -> calculateWeights m = [1]).
Proof.
intros Hn [Hlen _] Hpos.
pose proof (calculateWeights_positive_matrix n m Hlen Hpos) as Heq.
assert (0 < sum_over n (geometric_mean n m)) as Hsum.
{ apply sum_over_positive; [done|]. intros. apply geometric_mean_positive. }
assert (Rsum (calculateWeights m) = 1) as Hone.
{ rewrite Heq.
  rewrite <- (map_map (geometric_mean n m)
                (fun w => w / sum_over n (geometric_mean n m))).
  rewrite Rsum_map_div. fold (sum_over n (geometric_mean n m)).
  field. lra. }
split; [done|]. split; [|split; [done|]].
- rewrite Heq. apply Forall_fmap, Forall_forall. intros i _. simpl.
  apply Rlt_le, Rdiv_lt_0_compat; [apply geometric_mean_positive|done].
- intros ->. rewrite Heq. simpl. f_equal.
  unfold sum_over. simpl.
  pose proof (geometric_mean_positive 1 m 0). field. lra.
Qed.

Lemma matrix_in_range_positive n m :
  matrix_in_range n m -> positive_matrix n m.
Proof. intros Hrange i j Hi Hj. by destruct (Hrange i j Hi Hj). Qed.

(** C1, amended.  For every [n] by [n] matrix ([n >= 1]) with positive
    entries whose [n]-th powers lie between 1e-300 and 1e300, so that no row
    product leaves the range of the doubles, [calculateWeights] returns the
    row geometric means [(∏_j M[i][j])^(1/n)] divided by their sum.  Every
    weight is non-negative, the weights sum to 1 within 1e-9, and for
    [n = 1] the result is [[1]]. *)
Theorem calculateWeights_normalized_geometric_means (n : nat) (m : Matrix) :
  (1 <= n)%nat -> square n m -> matrix_in_range n m ->
  calculateWeights m =
    map (fun i => geometric_mean n m i / sum_over n (geometric_mean n m))
        (seq 0 n) /\
  Forall (fun w => 0 <= w) (calculateWeights m) /\
  Rabs (Rsum (calculateWeights m) - 1) <= 1e-9 /\
  (n = 1%nat -> calculateWeights m = [1]).
Proof.
intros Hn Hsq Hrange.
destruct (calculateWeights_sum_one n m Hn Hsq (matrix_in_range_positive _ _ Hrange))
  as (Heq & Hnonneg & Hone & Hsingle).
split; [done|]. split; [done|]. split; [|done].
rewrite Hone. replace (1 - 1) with 0 by lra. rewrite Rabs_R0. lra.
Qed.

Lemma geometric_means_sum_positive criteria comparisons :
  (1 <= length criteria)%nat ->
  positive_lookups criteria comparisons ->
  0 < foldl (fun acc w => acc + w) 0
        (geometric_means (buildComparisonMatrix criteria comparisons)).
Proof.
intros Hn Hpos.
destruct (buildComparisonMatrix_square criteria comparisons) as [Hlen _].
rewrite geometric_means_map, foldl_Rplus_Rsum, Rplus_0_l, Hlen.
apply sum_over_positive; [done|]. intros i Hi.
apply (computed_mean_positive (length criteria)); [done| |done].
by apply buildComparisonMatrix_positive.
Qed.

Lemma built_weights_positive criteria comparisons i :
  positive_lookups criteria comparisons ->
  (i < length criteria)%nat ->
  0 < at_index (calculateWeights (buildComparisonMatrix criteria comparisons)) i.
Proof.
intros Hpos Hi.
destruct (buildComparisonMatrix_square criteria comparisons) as [Hlen _].
rewrite at_index_calculateWeights by lia.
apply Rdiv_lt_0_compat.
- apply (computed_mean_positive (length criteria)); [done| |done].
  by apply buildComparisonMatrix_positive.
- pose proof (geometric_means_sum_positive criteria comparisons
                ltac:(lia) Hpos) as Hsum.
  by rewrite geometric_means_map, foldl_Rplus_Rsum, Rplus_0_l in Hsum.
Qed.

Lemma lookups_in_range_positive criteria comparisons :
  lookups_in_range criteria comparisons -> positive_lookups criteria comparisons.
Proof. intros Hrange i j v Hi Hj Hv. by destruct (Hrange i j v Hi Hj Hv). Qed.

(** C9, amended.  For every criteria list with [n >= 1] and every judgment
    mapping whose looked-up values are positive with [n]-th powers between
    1e-300 and 1e300, so that no row product leaves the range of the doubles,
    every weight [calculateWeights] produces on the built matrix is strictly
    positive, so neither the divisor [sum] of the normalization nor a divisor
    [weights[i]] of [calculateLambdaMax] is zero. *)
Theorem calculateWeights_built_matrix_positive
    (criteria : list string) (comparisons : gmap string R) :
  (1 <= length criteria)%nat ->
  lookups_in_range criteria comparisons ->
  let matrix := buildComparisonMatrix criteria comparisons in
  let sum := foldl (fun acc w => acc + w) 0 (geometric_means matrix) in
  length (calculateWeights matrix) = length criteria /\
  Forall (fun w => 0 < w) (calculateWeights matrix) /\
  sum <> 0 /\
  (forall i, (i < length criteria)%nat -> at_index (calculateWeights matrix) i <> 0).
Proof.
intros Hn Hrange matrix sum.
pose proof (lookups_in_range_positive _ _ Hrange) as Hpos.
destruct (buildComparisonMatrix_square criteria comparisons) as [Hlen _].
fold matrix in Hlen.
pose proof (geometric_means_sum_positive criteria comparisons Hn Hpos) as Hsum.
fold matrix in Hsum. fold sum in Hsum.
split; [by rewrite length_calculateWeights|].
split; [|split; [lra|]].
- apply Forall_lookup. intros i w Hiw.
  assert (i < length criteria)%nat as Hi.
  { apply lookup_lt_Some in Hiw. by rewrite length_calculateWeights, Hlen in Hiw. }
  pose proof (built_weights_positive criteria comparisons i Hpos Hi) as Hw.
  unfold at_index in Hw. fold matrix in Hw.
  by rewrite (list_lookup_total_correct _ _ _ Hiw) in Hw.
- intros i Hi.
  pose proof (built_weights_positive criteria comparisons i Hpos Hi) as Hw.
  fold matrix in Hw. lra.
Qed.

(* ===================================================================== *)
(** ** The consistency evaluator *)
(* ===================================================================== *)

Lemma at_index_insert (a : list R) i x p :
  (i < length a)%nat ->
  at_index (<[i := x]> a) p = if decide (i = p) then x else at_index a p.
Proof.
intros Hi. unfold at_index. rewrite list_lookup_total_insert.
destruct (decide (i = p)) as [->|Hne].
- by rewrite decide_True.
- by rewrite decide_False by tauto.
Qed.

Lemma weighted_sum_product m w :
  length (weighted_sum m w) = length m /\
  forall i, (i < length m)%nat ->
    at_index (weighted_sum m w) i = matrix_vector_product (length m) m w i.
Proof.
set (n := length m).
set (row_sum := fun (k i : nat) => sum_over k (fun j => entry m i j * at_index w j)).
assert (length (weighted_sum m w) = n /\
        forall p, (p < n)%nat ->
          at_index (weighted_sum m w) p =
            if decide (p < n)%nat then row_sum n p else 0) as [Hlen Hval].
{ unfold weighted_sum. fold n.
  apply (for_loop_invariant (fun i ws =>
           length ws = n /\
           forall p, (p < n)%nat ->
             at_index ws p = if decide (p < i)%nat then row_sum n p else 0)
           0%nat n);
    [lia| |].
  - split; [by rewrite length_replicate|]. intros p Hp.
    rewrite decide_False by lia. unfold at_index.
    by rewrite lookup_total_replicate_2.
  - intros i ws Hi [Hlen Hval].
    assert (let ws' := for_loop 0 n (fun j weightedSum =>
                  <[i := at_index weightedSum i + entry m i j * at_index w j]>
                    weightedSum) ws in
            length ws' = n /\
            forall p, (p < n)%nat ->
              at_index ws' p =
                if decide (p = i) then row_sum n i else at_index ws p)
      as [Hlen' Hval'].
    { apply (for_loop_invariant (fun j ws' =>
               length ws' = n /\
               forall p, (p < n)%nat ->
                 at_index ws' p =
                   if decide (p = i) then row_sum j i else at_index ws p)
               0%nat n);
        [lia| |].
      - split; [done|]. intros p Hp. case_decide; [|done]. subst p.
        rewrite Hval, decide_False by lia. unfold row_sum, sum_over. done.
      - intros j ws' Hj [Hlen' Hval']. split; [by rewrite length_insert|].
        intros p Hp. rewrite at_index_insert by lia.
        destruct (decide (i = p)) as [<-|Hne].
        + rewrite decide_True by done. rewrite Hval' by lia.
          rewrite decide_True by done. unfold row_sum. by rewrite sum_over_S.
        + rewrite Hval' by done. rewrite !decide_False by congruence. done. }
    split; [done|]. intros p Hp. rewrite Hval' by done.
    destruct (decide (p = i)) as [->|Hne].
    + by rewrite decide_True by lia.
    + rewrite Hval by done. repeat case_decide; done || lia. }
split; [done|]. intros i Hi. rewrite Hval by done. by rewrite decide_True.
Qed.

Lemma calculateLambdaMax_lambda_max m w :
  calculateLambdaMax m w = lambda_max (length m) m w.
Proof.
unfold calculateLambdaMax, lambda_max.
set (n := length m).
assert (for_loop 0 n (fun i lambdaMax =>
          lambdaMax + at_index (weighted_sum m w) i / at_index w i) 0 =
        sum_over n (fun i => matrix_vector_product n m w i / at_index w i))
  as ->; [|unfold Rdiv; lra].
apply (for_loop_invariant (fun i lambdaMax =>
         lambdaMax =
           sum_over i (fun i => matrix_vector_product n m w i / at_index w i)));
  [lia|done|].
intros i lambdaMax Hi ->. rewrite sum_over_S.
by rewrite (proj2 (weighted_sum_product m w)) by (fold n; lia).
Qed.

Lemma RANDOM_INDEX_or_fallback n :
  (3 <= n)%nat -> js_or (RANDOM_INDEX n) 1.49 = random_index n.
Proof.
intros Hn. unfold js_or.
do 11 (destruct n as [|n]; [try lia; simpl; rewrite bool_decide_eq_true_2 by lra; done|]).
done.
Qed.

Lemma calculateConsistencyRatio_large m w :
  (3 <= length m)%nat ->
  calculateConsistencyRatio m w =
    consistency_index (length m) (lambda_max (length m) m w)
      / random_index (length m).
Proof.
intros Hn. unfold calculateConsistencyRatio.
rewrite bool_decide_eq_false_2 by lia.
by rewrite RANDOM_INDEX_or_fallback, calculateLambdaMax_lambda_max.
Qed.

Lemma calculateConsistencyRatio_small m w :
  (length m < 3)%nat -> calculateConsistencyRatio m w = 0.
Proof.
intros Hn. unfold calculateConsistencyRatio. by rewrite bool_decide_eq_true_2.
Qed.

(** C5.  For every matrix of order [n >= 3] and weight vector with non-zero
    entries, [calculateConsistencyRatio] returns [CI / RI(n)] with
    [λmax = (1/n) * Σ_i ((M·w)[i] / w[i])], [CI = (λmax - n) / (n - 1)] and
    [RI] the fixed table 3: 0.58, 4: 0.90, 5: 1.12, 6: 1.24, 7: 1.32,
    8: 1.41, 9: 1.45, 10: 1.49; for every [n > 10] the value 1.49 is used. *)
Theorem calculateConsistencyRatio_formula (n : nat) (m : Matrix) (w : list R) :
  (3 <= n)%nat -> square n m -> length w = n ->
  (forall i, (i < n)%nat -> at_index w i <> 0) ->
  calculateConsistencyRatio m w =
    consistency_index n (lambda_max n m w) / random_index n /\
  ((10 < n)%nat ->
   calculateConsistencyRatio m w = consistency_index n (lambda_max n m w) / 1.49).
Proof.
intros Hn [Hlen _] _ _. subst n.
rewrite calculateConsistencyRatio_large by done. split; [done|].
intros Hbig. f_equal. revert Hbig. generalize (length m). intros k Hk.
do 11 (destruct k as [|k]; [lia|]). done.
Qed.

Lemma sum_over_div n f c :
  sum_over n f / c = sum_over n (fun i => f i / c).
Proof.
induction n as [|n IH].
- unfold sum_over. simpl. unfold Rdiv. lra.
- replace (S n) with (n + 1)%nat by lia. rewrite !sum_over_S, <- IH.
  unfold Rdiv. lra.
Qed.

Lemma reciprocal_pair_sum x y : 0 < x -> 0 < y -> x * y = 1 -> 2 <= x + y.
Proof.
intros Hx Hy Hxy.
destruct (Rle_lt_dec 2 (x + y)) as [|Hlt]; [done|exfalso].
assert ((x + y) * (x + y) < 2 * 2) by (apply Rmult_le_0_lt_compat; lra).
pose proof (Rle_0_sqr (x - y)) as Hsq. unfold Rsqr in Hsq. lra.
Qed.

(** The eigenvalue estimate of a positive reciprocal matrix is at least its
    order, whatever the positive weights: each pair of mirrored terms
    [M[i][j] * w[j] / w[i]] and [M[j][i] * w[i] / w[j]] has product 1, hence
    sum at least 2. *)
Lemma lambda_max_lower_bound n m w :
  (1 <= n)%nat ->
  reciprocal_matrix n m -> positive_matrix n m ->
  (forall i, (i < n)%nat -> 0 < at_index w i) ->
  INR n <= lambda_max n m w.
Proof.
intros Hn [Hdiag Hrec] Hpos Hw.
set (t := fun i j => entry m i j * at_index w j / at_index w i).
assert (sum_over n (fun i => matrix_vector_product n m w i / at_index w i) =
        sum_over n (fun i => sum_over n (fun j => t i j))) as Hsum.
{ apply sum_over_ext. intros i Hi. unfold matrix_vector_product.
  by rewrite sum_over_div. }
assert (INR n * (INR n * 2) <=
        sum_over n (fun i => sum_over n (fun j => t i j)) +
        sum_over n (fun i => sum_over n (fun j => t i j))) as Hdouble.
{ rewrite (sum_over_swap n n t) at 2.
  rewrite <- sum_over_plus.
  rewrite <- (sum_over_const n (INR n * 2)).
  apply sum_over_le. intros i Hi.
  rewrite <- sum_over_plus. rewrite <- (sum_over_const n 2).
  apply sum_over_le. intros j Hj. unfold t.
  pose proof (Hw i Hi). pose proof (Hw j Hj).
  pose proof (Hpos i j Hi Hj). pose proof (Hpos j i Hj Hi).
  apply reciprocal_pair_sum.
  - apply Rdiv_lt_0_compat; [by apply Rmult_lt_0_compat|done].
  - apply Rdiv_lt_0_compat; [by apply Rmult_lt_0_compat|done].
  - transitivity (entry m i j * entry m j i); [field; lra|by apply Hrec]. }
unfold lambda_max. rewrite Hsum.
assert (0 < INR n) as Hn0 by (apply lt_0_INR; lia).
apply (Rmult_le_reg_l (INR n)); [done|].
replace (INR n * (1 / INR n * sum_over n (fun i => sum_over n (fun j => t i j))))
  with (sum_over n (fun i => sum_over n (fun j => t i j))) by (field; lra).
lra.
Qed.

Lemma random_index_positive n : (3 <= n)%nat -> 0 < random_index n.
Proof.
intros Hn. do 11 (destruct n as [|n]; [try lia; simpl; lra|]). simpl. lra.
Qed.

Lemma calculateConsistencyRatio_nonneg m w :
  reciprocal_matrix (length m) m -> positive_matrix (length m) m ->
  (forall i, (i < length m)%nat -> 0 < at_index w i) ->
  0 <= calculateConsistencyRatio m w.
Proof.
intros Hrec Hpos Hw.
destruct (decide (length m < 3)%nat) as [Hsmall|Hlarge].
- rewrite calculateConsistencyRatio_small by done. lra.
- rewrite calculateConsistencyRatio_large by lia.
  pose proof (lambda_max_lower_bound (length m) m w ltac:(lia) Hrec Hpos Hw).
  pose proof (random_index_positive (length m) ltac:(lia)).
  assert (2 <= INR (length m)) as Hn.
  { replace 2 with (INR 2) by (simpl; lra). apply le_INR. lia. }
  unfold consistency_index.
  apply Rmult_le_pos; [apply Rmult_le_pos|]; try lra.
  + apply Rlt_le, Rinv_0_lt_compat. lra.
  + apply Rlt_le, Rinv_0_lt_compat. lra.
Qed.

(** C6.  For every criteria list with fewer than three criteria and every
    judgment mapping whatsoever, the consistency ratio that
    [calculateConsistencyRatio] and [calculateAHPWeights] return is exactly
    0, and the result is classified consistent. *)
Theorem consistency_ratio_small_order
    (criteria : list string) (comparisons : gmap string R) :
  (length criteria < 3)%nat ->
  (forall weights,
     calculateConsistencyRatio (buildComparisonMatrix criteria comparisons) weights = 0) /\
  result_consistencyRatio (calculateAHPWeights criteria comparisons) = 0 /\
  result_isConsistent (calculateAHPWeights criteria comparisons) = true.
Proof.
intros Hn.
assert (forall weights,
  calculateConsistencyRatio (buildComparisonMatrix criteria comparisons) weights = 0)
  as Hzero.
{ intros weights. apply calculateConsistencyRatio_small.
  by rewrite (proj1 (buildComparisonMatrix_square criteria comparisons)). }
split; [done|]. simpl. rewrite Hzero. split; [done|].
unfold isConsistent. apply bool_decide_eq_true_2. lra.
Qed.

(** In exact arithmetic the consistency ratio of a call with positive
    judgments is not negative. *)
Lemma built_ratio_nonneg (criteria : list string) (comparisons : gmap string R) :
  positive_lookups criteria comparisons ->
  0 <= result_consistencyRatio (calculateAHPWeights criteria comparisons).
Proof.
intros Hpos.
destruct (buildComparisonMatrix_square criteria comparisons) as [Hlen _].
simpl. apply calculateConsistencyRatio_nonneg; rewrite Hlen.
- apply buildComparisonMatrix_reciprocal.
- by apply buildComparisonMatrix_positive.
- intros i Hi. by apply built_weights_positive.
Qed.

(** C7, amended.  For every criteria list ([n >= 1]) and every judgment
    mapping with positive values whose [n]-th powers lie between 1e-300 and
    1e300, the consistency ratio [calculateAHPWeights] returns is
    non-negative up to rounding, that is, not below -1e-9, and the returned
    [isConsistent] flag says whether that ratio is below 0.1. *)
Theorem consistency_ratio_nonnegative
    (criteria : list string) (comparisons : gmap string R) :
  (1 <= length criteria)%nat ->
  judgments_in_range (length criteria) comparisons ->
  let result := calculateAHPWeights criteria comparisons in
  - 1e-9 <= result_consistencyRatio result /\
  (result_isConsistent result = true <-> result_consistencyRatio result < 0.1) /\
  result_isConsistent result = isConsistent (result_consistencyRatio result).
Proof.
intros Hn Hrange result.
pose proof (positive_judgments_lookups criteria _
              (judgments_in_range_positive _ _ Hrange)) as Hpos.
split; [|split; [|done]].
- pose proof (built_ratio_nonneg criteria comparisons Hpos). fold result in H. lra.
- simpl. unfold isConsistent. by rewrite bool_decide_eq_true.
Qed.

(* ===================================================================== *)
(** ** Zero, negative and duplicate input *)
(* ===================================================================== *)

Lemma truthy_delete_zero (comparisons : gmap string R) key k :
  comparisons !! key = Some 0 ->
  truthy (delete key comparisons !! k) = truthy (comparisons !! k) /\
  (truthy (comparisons !! k) = true ->
   delete key comparisons !! k = comparisons !! k).
Proof.
intros Hzero. destruct (decide (key = k)) as [->|Hne].
- rewrite lookup_delete_eq, Hzero. simpl.
  rewrite bool_decide_eq_false_2 by (intros H; by apply H). done.
- by rewrite lookup_delete_ne.
Qed.

Lemma fill_pair_delete_zero criteria (comparisons : gmap string R) key i j m :
  comparisons !! key = Some 0 ->
  fill_pair criteria (delete key comparisons) i j m =
  fill_pair criteria comparisons i j m.
Proof.
intros Hzero. unfold fill_pair.
set (k1 := pair_key (criteria_at criteria i) (criteria_at criteria j)).
set (k2 := pair_key (criteria_at criteria j) (criteria_at criteria i)).
destruct (truthy_delete_zero comparisons key k1 Hzero) as [Ht1 Hv1].
destruct (truthy_delete_zero comparisons key k2 Hzero) as [Ht2 Hv2].
rewrite Ht1, Ht2.
destruct (truthy (comparisons !! k1)); [by rewrite Hv1|].
destruct (truthy (comparisons !! k2)); [by rewrite Hv2|done].
Qed.

Lemma buildComparisonMatrix_delete_zero criteria (comparisons : gmap string R) key :
  comparisons !! key = Some 0 ->
  buildComparisonMatrix criteria (delete key comparisons) =
  buildComparisonMatrix criteria comparisons.
Proof.
intros Hzero. unfold buildComparisonMatrix.
apply for_loop_ext. intros i m _. apply for_loop_ext. intros j m' _.
by apply fill_pair_delete_zero.
Qed.

Lemma buildComparisonMatrix_nonzero criteria comparisons i j :
  (i < length criteria)%nat -> (j < length criteria)%nat ->
  entry (buildComparisonMatrix criteria comparisons) i j <> 0.
Proof.
intros Hi Hj H0.
pose proof (proj2 (buildComparisonMatrix_reciprocal criteria comparisons) i j Hi Hj) as H.
rewrite H0 in H. lra.
Qed.

(** C10.  A judgment entry whose value is exactly 0 is treated as if it were
    absent: the built matrix is the one built from the mapping without that
    entry.  For a pair whose forward entry is 0 the builder uses the reverse
    entry when that one is present and not 0, and otherwise sets the pair
    to 1; the call completes normally and no entry of the matrix is 0. *)
Theorem zero_judgment_treated_as_unspecified
    (criteria : list string) (comparisons : gmap string R) (key : string) :
  comparisons !! key = Some 0 ->
  let n := length criteria in
  let M := buildComparisonMatrix criteria comparisons in
  M = buildComparisonMatrix criteria (delete key comparisons) /\
  call_buildComparisonMatrix criteria comparisons = Returns M /\
  (forall i j, (i < n)%nat -> (j < n)%nat -> entry M i j <> 0) /\
  (forall i j, (i < j < n)%nat ->
     comparisons !! pair_key (criteria_at criteria i) (criteria_at criteria j)
       = Some 0 ->
     match comparisons !! pair_key (criteria_at criteria j) (criteria_at criteria i) with
     | Some v =>
         if decide (v = 0) then entry M i j = 1 /\ entry M j i = 1
         else entry M j i = v /\ entry M i j = 1 / v
     | None => entry M i j = 1 /\ entry M j i = 1
     end).
Proof.
intros Hzero n M.
split; [by rewrite buildComparisonMatrix_delete_zero|]. split; [done|].
split; [by apply buildComparisonMatrix_nonzero|].
intros i j Hij Hfwd.
destruct (buildComparisonMatrix_pair criteria comparisons i j Hij) as [H1 H2].
fold M in H1, H2. rewrite H1, H2. unfold pair_values. rewrite Hfwd. simpl.
rewrite bool_decide_eq_false_2 by (intros H; by apply H).
destruct (comparisons !! pair_key (criteria_at criteria j) (criteria_at criteria i))
  as [v|]; simpl; [|done].
destruct (decide (v = 0)) as [->|Hv].
- rewrite bool_decide_eq_false_2 by (intros H; by apply H). done.
- rewrite bool_decide_eq_true_2 by done. done.
Qed.

Lemma store_weights_cons weightArray start c criteria weights :
  store_weights weightArray start (c :: criteria) weights =
  store_weights weightArray (S start) criteria
    (assign weights c (at_index weightArray start)).
Proof. reflexivity. Qed.

Lemma lookup_assign_ne weights c w a :
  c <> a -> assign weights c w !! a = weights !! a.
Proof.
intros Hne. unfold assign. case_decide; [done|]. by rewrite lookup_insert_ne.
Qed.

Lemma lookup_assign_eq weights a w :
  a <> "__proto__"%string -> assign weights a w !! a = Some w.
Proof.
intros Hne. unfold assign. case_decide; [done|]. by rewrite lookup_insert_eq.
Qed.

Lemma store_weights_absent weightArray start criteria weights a :
  a ∉ criteria ->
  store_weights weightArray start criteria weights !! a = weights !! a.
Proof.
revert start weights. induction criteria as [|c criteria IH];
  intros start weights Hnotin; [done|].
apply not_elem_of_cons in Hnotin as [Hne Hnotin].
rewrite store_weights_cons, IH by done. by rewrite lookup_assign_ne.
Qed.

Lemma store_weights_proto weightArray start criteria weights :
  store_weights weightArray start criteria weights !! "__proto__"%string =
  weights !! "__proto__"%string.
Proof.
revert start weights. induction criteria as [|c criteria IH];
  intros start weights; [done|].
rewrite store_weights_cons, IH. unfold assign.
case_decide as Hc; [done|]. by rewrite lookup_insert_ne.
Qed.

Lemma store_weights_last weightArray start criteria weights i a :
  a <> "__proto__"%string ->
  criteria !! i = Some a ->
  (forall j, (i < j)%nat -> criteria !! j <> Some a) ->
  store_weights weightArray start criteria weights !! a =
    Some (at_index weightArray (start + i)).
Proof.
intros Ha.
revert start weights i. induction criteria as [|c criteria IH];
  intros start weights i Hi Hlast; [done|].
rewrite store_weights_cons.
destruct i as [|i]; simpl in Hi.
- injection Hi as ->. rewrite store_weights_absent.
  + rewrite lookup_assign_eq by done. by rewrite Nat.add_0_r.
  + intros [j Hj]%list_elem_of_lookup. apply (Hlast (S j)); [lia|done].
- rewrite (IH _ _ i) by (try done; intros j Hj; apply (Hlast (S j)); lia).
  do 2 f_equal. lia.
Qed.

Lemma weights_object_last criteria weightArray i a :
  a <> "__proto__"%string ->
  criteria !! i = Some a ->
  (forall j, (i < j)%nat -> criteria !! j <> Some a) ->
  weights_object criteria weightArray !! a = Some (at_index weightArray i).
Proof.
intros Ha Hi Hlast. unfold weights_object.
fold (store_weights weightArray 0 criteria ∅).
by rewrite (store_weights_last _ _ _ _ i a).
Qed.

Lemma weights_object_absent criteria weightArray a :
  a ∉ criteria -> weights_object criteria weightArray !! a = None.
Proof.
intros Ha. unfold weights_object.
fold (store_weights weightArray 0 criteria ∅).
by rewrite store_weights_absent.
Qed.

Lemma weights_object_proto criteria weightArray :
  weights_object criteria weightArray !! "__proto__"%string = None.
Proof.
unfold weights_object.
fold (store_weights weightArray 0 criteria ∅).
by rewrite store_weights_proto.
Qed.

(** C3, as the specification states it, fails: with the judgment
    [A-B = -3] the builder returns the matrix [[1, -3], [1/-3, 1]], and
    neither it nor [calculateAHPWeights] fails. *)
Lemma negative_judgment_is_stored :
  has_nonpositive_judgment {["A-B"%string := -3]} /\
  call_buildComparisonMatrix ["A"; "B"]%string {["A-B"%string := -3]}
    = Returns [[1; -3]; [1 / -3; 1]] /\
  call_buildComparisonMatrix ["A"; "B"]%string {["A-B"%string := -3]}
    <> Throws InvalidInputError /\
  call_calculateAHPWeights ["A"; "B"]%string {["A-B"%string := -3]}
    <> Throws InvalidInputError.
Proof.
split; [|split; [|done]].
- exists "A-B"%string, (-3). rewrite lookup_singleton_eq. split; [done|lra].
- unfold call_buildComparisonMatrix, buildComparisonMatrix, for_loop. simpl.
  unfold fill_pair. simpl. rewrite lookup_singleton_eq. simpl.
  by rewrite bool_decide_eq_true_2 by lra.
Qed.

(** C3, amended.  No input makes the builder or [calculateAHPWeights] fail.
    A negative value the builder looks up for a pair is stored like a
    positive one, together with its reciprocal, and a value 0 is treated as
    an absent entry. *)
Theorem nonpositive_judgment_not_rejected
    (criteria : list string) (comparisons : gmap string R) :
  let n := length criteria in
  let M := buildComparisonMatrix criteria comparisons in
  call_buildComparisonMatrix criteria comparisons = Returns M /\
  call_calculateAHPWeights criteria comparisons
    = Returns (calculateAHPWeights criteria comparisons) /\
  square n M /\
  (forall i j v, (i < j < n)%nat -> v < 0 ->
     comparisons !! pair_key (criteria_at criteria i) (criteria_at criteria j)
       = Some v ->
     entry M i j = v /\ entry M j i = 1 / v) /\
  (forall i j v, (i < j < n)%nat -> v < 0 ->
     truthy (comparisons !! pair_key (criteria_at criteria i) (criteria_at criteria j))
       = false ->
     comparisons !! pair_key (criteria_at criteria j) (criteria_at criteria i)
       = Some v ->
     entry M j i = v /\ entry M i j = 1 / v) /\
  (forall key, comparisons !! key = Some 0 ->
     M = buildComparisonMatrix criteria (delete key comparisons)).
Proof.
intros n M. split; [done|]. split; [done|].
split; [apply buildComparisonMatrix_square|].
split; [|split].
- intros i j v Hij Hv Hfwd.
  destruct (buildComparisonMatrix_pair criteria comparisons i j Hij) as [H1 H2].
  fold M in H1, H2. rewrite H1, H2. unfold pair_values. rewrite Hfwd. simpl.
  by rewrite bool_decide_eq_true_2 by lra.
- intros i j v Hij Hv Hfwd Hrev.
  destruct (buildComparisonMatrix_pair criteria comparisons i j Hij) as [H1 H2].
  fold M in H1, H2. rewrite H1, H2. unfold pair_values. rewrite Hfwd, Hrev. simpl.
  by rewrite bool_decide_eq_true_2 by lra.
- intros key Hzero. by rewrite buildComparisonMatrix_delete_zero.
Qed.

(** C4, as the specification states it, fails: for the criteria
    [A, A, B] and no judgments the builder returns the 3 by 3 matrix of
    ones, and neither it nor [calculateAHPWeights] fails. *)
Lemma duplicate_criteria_are_accepted :
  ~ NoDup ["A"; "A"; "B"]%string /\
  call_buildComparisonMatrix ["A"; "A"; "B"]%string ∅
    = Returns [[1; 1; 1]; [1; 1; 1]; [1; 1; 1]] /\
  call_buildComparisonMatrix ["A"; "A"; "B"]%string ∅
    <> Throws InvalidInputError /\
  call_calculateAHPWeights ["A"; "A"; "B"]%string ∅
    <> Throws InvalidInputError.
Proof.
split; [|split; [|done]].
- intros Hnd. apply NoDup_cons in Hnd as [Hnotin _].
  apply Hnotin. by left.
- unfold call_buildComparisonMatrix, buildComparisonMatrix, for_loop. simpl.
  unfold fill_pair. simpl. by rewrite !lookup_empty.
Qed.

(** C4, amended.  No criteria list, with or without duplicate labels, makes
    the builder or [calculateAHPWeights] fail.  The builder treats every
    position as a criterion of its own: it returns an [n] by [n] matrix with
    diagonal 1 in which a pair of positions holds the value looked up for
    their two labels and its reciprocal, or 1 and 1.  In the returned
    [weights] object a label other than [__proto__] holds the weight computed
    for the last position carrying it, and the label [__proto__] creates no
    property. *)
Theorem duplicate_criteria_not_rejected
    (criteria : list string) (comparisons : gmap string R) :
  let n := length criteria in
  let M := buildComparisonMatrix criteria comparisons in
  let result := calculateAHPWeights criteria comparisons in
  call_buildComparisonMatrix criteria comparisons = Returns M /\
  call_calculateAHPWeights criteria comparisons = Returns result /\
  square n M /\
  (forall i, (i < n)%nat -> entry M i i = 1) /\
  (forall i j, (i < j < n)%nat ->
     let forward :=
       comparisons !! pair_key (criteria_at criteria i) (criteria_at criteria j) in
     let backward :=
       comparisons !! pair_key (criteria_at criteria j) (criteria_at criteria i) in
     if truthy forward
     then entry M i j = number_of forward /\ entry M j i = 1 / number_of forward
     else if truthy backward
     then entry M j i = number_of backward /\ entry M i j = 1 / number_of backward
     else entry M i j = 1 /\ entry M j i = 1) /\
  (forall i a, a <> "__proto__"%string -> criteria !! i = Some a ->
     (forall j, (i < j)%nat -> criteria !! j <> Some a) ->
     result_weights result !! a = Some (at_index (calculateWeights M) i)) /\
  result_weights result !! "__proto__"%string = None.
Proof.
intros n M result. split; [done|]. split; [done|].
split; [apply buildComparisonMatrix_square|].
split.
{ intros i Hi. unfold M. rewrite buildComparisonMatrix_entry by done.
  by rewrite decide_True. }
split.
{ intros i j Hij forward backward. unfold M.
  rewrite !buildComparisonMatrix_entry by (fold n; lia).
  rewrite (decide_False (P := i = j)) by lia.
  rewrite (decide_True (P := (i < j)%nat)) by lia.
  rewrite (decide_False (P := j = i)) by lia.
  rewrite (decide_False (P := (j < i)%nat)) by lia.
  unfold pair_values. fold forward backward.
  destruct (truthy forward); [done|]. by destruct (truthy backward). }
split.
- intros i a Ha Hi Hlast. simpl. by apply weights_object_last.
- simpl. apply weights_object_proto.
Qed.

(* ===================================================================== *)
(** ** Order invariance *)
(* ===================================================================== *)

Lemma criteria_at_lookup criteria i a :
  criteria !! i = Some a -> criteria_at criteria i = a.
Proof. intros H. unfold criteria_at. by rewrite H. Qed.

Lemma map_criteria_at {A} (g : string -> A) criteria :
  map (fun i => g (criteria_at criteria i)) (seq 0 (length criteria)) =
  map g criteria.
Proof.
apply list_eq. intros i. rewrite !list_lookup_fmap.
destruct (decide (i < length criteria)%nat) as [Hi|Hi].
- rewrite lookup_seq_lt by done.
  destruct (lookup_lt_is_Some_2 criteria i Hi) as [a Ha].
  rewrite Ha. simpl. by rewrite (criteria_at_lookup _ _ _ Ha).
- rewrite lookup_seq_ge by lia. by rewrite lookup_ge_None_2 by lia.
Qed.

Lemma sum_over_criteria g criteria :
  sum_over (length criteria) (fun i => g (criteria_at criteria i)) =
  Rsum (map g criteria).
Proof. unfold sum_over. by rewrite map_criteria_at. Qed.

Lemma prod_over_criteria g criteria :
  prod_over (length criteria) (fun i => g (criteria_at criteria i)) =
  Rprod (map g criteria).
Proof. unfold prod_over. by rewrite map_criteria_at. Qed.

Lemma Rsum_Permutation l1 l2 : l1 ≡ₚ l2 -> Rsum l1 = Rsum l2.
Proof. induction 1; simpl; lra. Qed.

Lemma Rprod_Permutation l1 l2 : l1 ≡ₚ l2 -> Rprod l1 = Rprod l2.
Proof. induction 1; simpl; try lra. congruence. Qed.

Lemma Rsum_map_Permutation {A} (g g' : A -> R) l l' :
  l ≡ₚ l' -> (forall a, a ∈ l -> g' a = g a) ->
  Rsum (map g' l') = Rsum (map g l).
Proof.
intros Hperm Hext. rewrite <- (Rsum_Permutation (map g' l) (map g' l')).
- f_equal. apply map_ext_in. intros a Ha. apply Hext. by apply list_elem_of_In.
- by apply fmap_Permutation.
Qed.

Lemma Rprod_map_Permutation {A} (g g' : A -> R) l l' :
  l ≡ₚ l' -> (forall a, a ∈ l -> g' a = g a) ->
  Rprod (map g' l') = Rprod (map g l).
Proof.
intros Hperm Hext. rewrite <- (Rprod_Permutation (map g' l) (map g' l')).
- f_equal. apply map_ext_in. intros a Ha. apply Hext. by apply list_elem_of_In.
- by apply fmap_Permutation.
Qed.

Lemma position_lookup criteria i a :
  NoDup criteria -> criteria !! i = Some a -> position criteria a = i.
Proof.
intros Hnd Hi. unfold position.
destruct (list_find (fun c => c = a) criteria) as [[k c]|] eqn:Hfind; simpl.
- apply list_find_Some in Hfind as (Hk & -> & _). by eapply NoDup_lookup.
- apply list_find_None in Hfind.
  rewrite Forall_forall in Hfind. exfalso. apply (Hfind a); [|done].
  by eapply list_elem_of_lookup_2.
Qed.

Section Labels.
Variable criteria : list string.
Variable comparisons : gmap string R.
Hypothesis criteria_unique : NoDup criteria.

Let n := length criteria.
Let M := buildComparisonMatrix criteria comparisons.
Let J := built_judgment criteria comparisons.

Lemma built_length : length M = n.
Proof. apply buildComparisonMatrix_square. Qed.

Lemma built_entry_judged i j :
  (i < n)%nat -> (j < n)%nat ->
  entry M i j = J (criteria_at criteria i) (criteria_at criteria j).
Proof.
intros Hi Hj. unfold J, built_judgment.
destruct (lookup_lt_is_Some_2 criteria i Hi) as [a Ha].
destruct (lookup_lt_is_Some_2 criteria j Hj) as [b Hb].
rewrite (criteria_at_lookup _ _ _ Ha), (criteria_at_lookup _ _ _ Hb).
by rewrite (position_lookup _ i a), (position_lookup _ j b).
Qed.

Lemma built_mean i :
  (i < n)%nat ->
  computed_mean M i = label_mean criteria J (criteria_at criteria i).
Proof.
intros Hi. unfold computed_mean, label_mean.
rewrite built_length. fold n. f_equal. rewrite row_product_prod_over.
rewrite <- prod_over_criteria. apply prod_over_ext.
intros j Hj. by apply built_entry_judged.
Qed.

Lemma built_weight i :
  (i < n)%nat ->
  at_index (calculateWeights M) i =
    label_weight criteria J (criteria_at criteria i).
Proof.
intros Hi. unfold label_weight.
rewrite at_index_calculateWeights by (by rewrite built_length).
rewrite built_mean by done. f_equal.
rewrite built_length. rewrite <- sum_over_criteria. apply sum_over_ext. intros j Hj. by apply built_mean.
Qed.

Lemma built_lambda :
  lambda_max n M (calculateWeights M) = label_lambda criteria J.
Proof.
unfold lambda_max, label_lambda. fold n. f_equal.
rewrite <- sum_over_criteria. apply sum_over_ext. intros i Hi.
rewrite built_weight by done. f_equal.
unfold matrix_vector_product.
rewrite <- sum_over_criteria. apply sum_over_ext. intros j Hj.
by rewrite built_entry_judged, built_weight.
Qed.

Lemma built_ratio :
  calculateConsistencyRatio M (calculateWeights M) =
    if bool_decide (n < 3)%nat then 0
    else consistency_index n (label_lambda criteria J) / random_index n.
Proof.
pose proof built_length as Hlen.
case_bool_decide as Hn.
- apply calculateConsistencyRatio_small. lia.
- rewrite calculateConsistencyRatio_large by lia.
  by rewrite Hlen, built_lambda.
Qed.

Lemma built_weights_object a :
  weights_object criteria (calculateWeights M) !! a =
    if decide (a ∈ criteria /\ a <> "__proto__"%string)
    then Some (label_weight criteria J a) else None.
Proof.
case_decide as Ha.
- destruct Ha as [Ha Hproto].
  apply list_elem_of_lookup in Ha as [i Hi].
  rewrite (weights_object_last criteria _ i a Hproto Hi).
  + rewrite built_weight by (by eapply lookup_lt_Some).
    by rewrite (criteria_at_lookup _ _ _ Hi).
  + intros j Hj Hja.
    pose proof (NoDup_lookup _ _ _ _ criteria_unique Hi Hja). lia.
- destruct (decide (a = "__proto__"%string)) as [->|Hproto].
  + apply weights_object_proto.
  + apply weights_object_absent. tauto.
Qed.
End Labels.

Section Permuted.
Variables criteria criteria' : list string.
Variables J J' : string -> string -> R.
Hypothesis criteria_permuted : criteria ≡ₚ criteria'.
Hypothesis same_J : forall a b, a ∈ criteria -> b ∈ criteria -> J' a b = J a b.

Lemma label_mean_permuted a :
  a ∈ criteria -> label_mean criteria' J' a = label_mean criteria J a.
Proof.
intros Ha. unfold label_mean.
rewrite <- (Permutation_length criteria_permuted). f_equal.
apply Rprod_map_Permutation; [done|]. intros b Hb. by apply same_J.
Qed.

Lemma label_weight_permuted a :
  a ∈ criteria -> label_weight criteria' J' a = label_weight criteria J a.
Proof.
intros Ha. unfold label_weight. rewrite label_mean_permuted by done. f_equal.
apply Rsum_map_Permutation; [done|]. apply label_mean_permuted.
Qed.

Lemma label_lambda_permuted :
  label_lambda criteria' J' = label_lambda criteria J.
Proof.
unfold label_lambda.
rewrite <- (Permutation_length criteria_permuted). f_equal.
apply Rsum_map_Permutation; [done|]. intros a Ha.
rewrite label_weight_permuted by done. f_equal.
apply Rsum_map_Permutation; [done|]. intros b Hb.
by rewrite same_J, label_weight_permuted.
Qed.
End Permuted.

(** With renamed keys the permuted call builds, for every two criteria, the
    judgment the original call builds. *)
Lemma renamed_built_judgment criteria criteria' comparisons comparisons' a b :
  criteria ≡ₚ criteria' -> NoDup criteria ->
  renamed_judgments criteria comparisons criteria' comparisons' ->
  a ∈ criteria -> b ∈ criteria ->
  built_judgment criteria' comparisons' a b =
  built_judgment criteria comparisons a b.
Proof.
intros Hperm Hnd Hren Ha Hb.
assert (NoDup criteria') as Hnd' by (by rewrite <- Hperm).
pose proof Ha as Ha'. pose proof Hb as Hb'. rewrite Hperm in Ha', Hb'.
apply list_elem_of_lookup in Ha' as [i Hi].
apply list_elem_of_lookup in Hb' as [j Hj].
apply list_elem_of_lookup in Ha as [p Hp].
apply list_elem_of_lookup in Hb as [q Hq].
pose proof (lookup_lt_Some _ _ _ Hi) as Hilt.
pose proof (lookup_lt_Some _ _ _ Hj) as Hjlt.
pose proof (lookup_lt_Some _ _ _ Hp) as Hplt.
pose proof (lookup_lt_Some _ _ _ Hq) as Hqlt.
pose proof (Hren) as Hren'. unfold renamed_judgments, built_judgment in Hren'.
unfold built_judgment.
rewrite (position_lookup _ i a), (position_lookup _ j b) by done.
rewrite (position_lookup _ p a), (position_lookup _ q b) by done.
rewrite (buildComparisonMatrix_entry criteria') by done.
rewrite (criteria_at_lookup _ _ _ Hi), (criteria_at_lookup _ _ _ Hj).
destruct (decide (i = j)) as [->|Hij].
- assert (a = b) as -> by congruence.
  assert (p = q) as -> by (by apply (NoDup_lookup criteria p q b)).
  rewrite buildComparisonMatrix_entry by done. by rewrite decide_True.
- case_decide as Hlt.
  + rewrite (Hren' i j a b Hlt Hi Hj).
    by rewrite (position_lookup _ p a), (position_lookup _ q b).
  + pose proof (Hren' j i b a ltac:(lia) Hj Hi) as Hba.
    rewrite (position_lookup _ p a), (position_lookup _ q b) in Hba by done.
    pose proof (pair_values_reciprocal comparisons' b a) as Hrec'.
    pose proof (proj2 (buildComparisonMatrix_reciprocal criteria comparisons)
                  p q Hplt Hqlt) as Hrec.
    rewrite Hba in Hrec'.
    set (x := entry (buildComparisonMatrix criteria comparisons) q p) in *.
    assert (x <> 0) as Hx by (intros Hx; rewrite Hx in Hrec; lra).
    apply (Rmult_eq_reg_l x); [|done]. lra.
Qed.

(** In exact arithmetic the call on the permuted list with the renamed keys
    returns the very same weights and consistency ratio. *)
Lemma calculateAHPWeights_renamed
    (criteria criteria' : list string) (comparisons comparisons' : gmap string R) :
  criteria ≡ₚ criteria' ->
  NoDup criteria ->
  renamed_judgments criteria comparisons criteria' comparisons' ->
  let result := calculateAHPWeights criteria comparisons in
  let result' := calculateAHPWeights criteria' comparisons' in
  (forall a, result_weights result' !! a = result_weights result !! a) /\
  result_consistencyRatio result' = result_consistencyRatio result.
Proof.
intros Hperm Hnodup Hren result result'.
assert (NoDup criteria') as Hnodup' by (by rewrite <- Hperm).
pose proof (fun a b => renamed_built_judgment _ _ _ _ a b Hperm Hnodup Hren)
  as Hsame.
split.
- intros a. simpl. rewrite !built_weights_object by done.
  destruct (decide (a ∈ criteria /\ a <> "__proto__"%string)) as [[Ha Hp]|Ha].
  + rewrite decide_True by (by rewrite <- Hperm). f_equal.
    by apply label_weight_permuted.
  + rewrite decide_False; [done|]. by rewrite <- Hperm.
- simpl. rewrite !built_ratio by done.
  rewrite <- (Permutation_length Hperm).
  by rewrite (label_lambda_permuted criteria criteria'
                (built_judgment criteria comparisons)
                (built_judgment criteria' comparisons')).
Qed.

Lemma close_refl x : close x x.
Proof.
unfold close. replace (x - x) with 0 by lra. rewrite Rabs_R0. lra.
Qed.

(** C8, amended.  For every list of distinct criteria, every permutation of
    it and every two judgment mappings with values in the range of the
    doubles of which the second holds the judgments of the first under the
    keys renamed for the permuted order, the two calls of
    [calculateAHPWeights] return weights objects with the same names whose
    values agree within 1e-9, and consistency ratios that agree within 1e-9,
    relative to the size of the ratio when that exceeds 1.  (In exact
    arithmetic they are equal: [calculateAHPWeights_renamed].) *)
Theorem calculateAHPWeights_order_invariant
    (criteria criteria' : list string) (comparisons comparisons' : gmap string R) :
  criteria ≡ₚ criteria' ->
  NoDup criteria ->
  judgments_in_range (length criteria) comparisons ->
  judgments_in_range (length criteria) comparisons' ->
  renamed_judgments criteria comparisons criteria' comparisons' ->
  let result := calculateAHPWeights criteria comparisons in
  let result' := calculateAHPWeights criteria' comparisons' in
  (forall a, close_properties (result_weights result' !! a)
                              (result_weights result !! a)) /\
  Rabs (result_consistencyRatio result' - result_consistencyRatio result)
    <= 1e-9 * (1 + Rabs (result_consistencyRatio result)).
Proof.
intros Hperm Hnodup _ _ Hren result result'.
destruct (calculateAHPWeights_renamed _ _ _ _ Hperm Hnodup Hren) as [Hw Hcr].
fold result result' in Hw, Hcr. split.
- intros a. rewrite Hw. destruct (result_weights result !! a); simpl; [|done].
  apply close_refl.
- rewrite Hcr.
  replace (result_consistencyRatio result - result_consistencyRatio result)
    with 0 by lra.
  rewrite Rabs_R0.
  pose proof (Rabs_pos (result_consistencyRatio result)). lra.
Qed.

(* ===================================================================== *)
(** ** Test cases of the specification *)
(* ===================================================================== *)

(** Single dominance: with the one judgment "a is nine times b" the weights
    are 9/10 and 1/10, up to the tolerance. *)
Example single_dominance :
  let result := calculateAHPWeights ["a"; "b"]%string {["a-b"%string := 9]} in
  close_properties (result_weights result !! "a"%string) (Some (9 / 10)) /\
  close_properties (result_weights result !! "b"%string) (Some (1 / 10)) /\
  result_consistencyRatio result = 0.
Proof.
intros result.
assert (buildComparisonMatrix ["a"; "b"]%string {["a-b"%string := 9]}
        = [[1; 9]; [1 / 9; 1]]) as HM.
{ unfold buildComparisonMatrix, for_loop. simpl. unfold fill_pair. simpl.
  rewrite lookup_singleton_eq. simpl. by rewrite bool_decide_eq_true_2 by lra. }
assert (calculateWeights [[1; 9]; [1 / 9; 1]] = [9 / 10; 1 / 10]) as HW.
{ rewrite calculateWeights_map. 
  unfold computed_mean, Math_pow, row_product, for_loop, sum_over. simpl.
  unfold entry, at_index. simpl.
  rewrite !decide_True by lra.
  replace (1 * 1 * 9) with (3 * 3) by lra.
  replace (1 * (1 / 9) * 1) with (/ 3 * / 3) by lra.
  rewrite !Rpower_square_half by lra.
  f_equal; [|f_equal]; field. }
unfold result, calculateAHPWeights. simpl. rewrite HM, HW.
split; [|split].
- rewrite (weights_object_last _ _ 0 "a"%string);
    [|done|done|intros [|[|j]] Hj; lia || done].
  apply close_refl.
- rewrite (weights_object_last _ _ 1 "b"%string);
    [|done|done|intros [|[|j]] Hj; lia || done].
  apply close_refl.
- by apply calculateConsistencyRatio_small; simpl; lia.
Qed.

(** Equal importance: without judgments three criteria weigh 1/3 each and
    the consistency ratio is 0. *)
Example equal_importance :
  let result := calculateAHPWeights ["a"; "b"; "c"]%string ∅ in
  (forall x, x ∈ ["a"; "b"; "c"]%string -> result_weights result !! x = Some (1 / 3)) /\
  result_consistencyRatio result = 0 /\
  result_isConsistent result = true.
Proof.
intros result.
assert (buildComparisonMatrix ["a"; "b"; "c"]%string ∅
        = [[1; 1; 1]; [1; 1; 1]; [1; 1; 1]]) as HM.
{ unfold buildComparisonMatrix, for_loop. simpl. unfold fill_pair. simpl.
  by rewrite !lookup_empty. }
assert (calculateWeights [[1; 1; 1]; [1; 1; 1]; [1; 1; 1]] = [1 / 3; 1 / 3; 1 / 3]) as HW.
{ rewrite calculateWeights_map. 
  unfold computed_mean, Math_pow, row_product, for_loop, sum_over. simpl.
  unfold entry, at_index. simpl.
  rewrite !decide_True by lra.
  set (z := Rpower (1 * 1 * 1 * 1) (1 / (1 + 1 + 1))).
  assert (0 < z) by apply exp_pos.
  f_equal; [|f_equal; [|f_equal]]; field; lra. }
assert (result_consistencyRatio result = 0) as Hcr.
{ unfold result, calculateAHPWeights. simpl. rewrite HM, HW.
  rewrite calculateConsistencyRatio_large by (simpl; lia).
  unfold consistency_index, lambda_max, matrix_vector_product, sum_over. simpl.
  unfold entry, at_index. simpl. field. lra. }
split; [|split; [done|]].
- intros x Hx. unfold result, calculateAHPWeights. simpl. rewrite HM, HW.
  apply elem_of_cons in Hx as [->|Hx]; [|apply elem_of_cons in Hx as [->|Hx];
    [|apply list_elem_of_singleton in Hx as ->]].
  + by rewrite (weights_object_last _ _ 0 "a"%string);
      [|done|done|intros [|[|[|j]]] Hj; lia || done].
  + by rewrite (weights_object_last _ _ 1 "b"%string);
      [|done|done|intros [|[|[|j]]] Hj; lia || done].
  + by rewrite (weights_object_last _ _ 2 "c"%string);
      [|done|done|intros [|[|[|j]]] Hj; lia || done].
- unfold result in *. simpl in *. rewrite Hcr. unfold isConsistent.
  apply bool_decide_eq_true_2. lra.
Qed.

(* ===================================================================== *)
(** ** The theorems at concrete inputs *)
(* ===================================================================== *)

Ltac concrete_square :=
  split; [done|];
  intros i row Hrow; repeat (destruct i as [|i]; [by injection Hrow as <-|]);
  done.

Ltac concrete_in_range :=
  intros i j Hi Hj;
  repeat (destruct i as [|i]; [|try lia]);
  repeat (destruct j as [|j]; [|try lia]);
  unfold entry, at_index; simpl; split; lra.

Lemma singleton_judgments_in_range n key v :
  in_double_range n v -> judgments_in_range n {[key := v]}.
Proof. intros Hv k x [_ <-]%lookup_singleton_Some. done. Qed.

(** [calculateWeights] on the matrix of the judgment "A is twice B". *)
Lemma calculateWeights_normalized_geometric_means_witness :
  (1 <= 2)%nat /\
  square 2 [[1; 2]; [1 / 2; 1]] /\
  matrix_in_range 2 [[1; 2]; [1 / 2; 1]] /\
  Forall (fun w => 0 <= w) (calculateWeights [[1; 2]; [1 / 2; 1]]) /\
  Rabs (Rsum (calculateWeights [[1; 2]; [1 / 2; 1]]) - 1) <= 1e-9.
Proof.
assert (square 2 [[1; 2]; [1 / 2; 1]]) as Hsq by concrete_square.
assert (matrix_in_range 2 [[1; 2]; [1 / 2; 1]]) as Hrange by concrete_in_range.
split; [lia|]. split; [done|]. split; [done|].
destruct (calculateWeights_normalized_geometric_means 2 [[1; 2]; [1 / 2; 1]]
            ltac:(lia) Hsq Hrange) as (_ & Hnonneg & Hsum & _).
by split.
Defined.

(** The builder on two criteria with the judgment "A is three times B". *)
Lemma buildComparisonMatrix_reciprocal_by_construction_witness :
  judgments_in_range 1 {["A-B"%string := 3]} /\
  square 2 (buildComparisonMatrix ["A"; "B"]%string {["A-B"%string := 3]}) /\
  Rabs (entry (buildComparisonMatrix ["A"; "B"]%string {["A-B"%string := 3]}) 0 1 *
        entry (buildComparisonMatrix ["A"; "B"]%string {["A-B"%string := 3]}) 1 0
        - 1) <= 1e-9.
Proof.
assert (judgments_in_range 1 {["A-B"%string := 3]}) as Hrange
  by (apply singleton_judgments_in_range; split; simpl; lra).
split; [done|].
destruct (buildComparisonMatrix_reciprocal_by_construction
            ["A"; "B"]%string {["A-B"%string := 3]} Hrange)
  as (Hsq & _ & Hrec & _).
split; [done|]. apply Hrec; simpl; lia.
Defined.

(** The consistency ratio of the 3 by 3 matrix of ones with equal weights. *)
Lemma calculateConsistencyRatio_formula_witness :
  let m := [[1; 1; 1]; [1; 1; 1]; [1; 1; 1]] in
  let w := [1 / 3; 1 / 3; 1 / 3] in
  (3 <= 3)%nat /\ square 3 m /\ length w = 3%nat /\
  (forall i, (i < 3)%nat -> at_index w i <> 0) /\
  calculateConsistencyRatio m w =
    consistency_index 3 (lambda_max 3 m w) / random_index 3.
Proof.
intros m w.
assert (square 3 m) as Hsq by concrete_square.
assert (forall i, (i < 3)%nat -> at_index w i <> 0) as Hw.
{ intros i Hi. repeat (destruct i as [|i]; [unfold at_index; simpl; lra|]). lia. }
split; [lia|]. split; [done|]. split; [done|]. split; [done|].
apply (calculateConsistencyRatio_formula 3 m w); done || lia.
Defined.

(** Two criteria with an extreme judgment are consistent. *)
Lemma consistency_ratio_small_order_witness :
  (length ["A"; "B"]%string < 3)%nat /\
  result_consistencyRatio
    (calculateAHPWeights ["A"; "B"]%string {["A-B"%string := 9]}) = 0 /\
  result_isConsistent
    (calculateAHPWeights ["A"; "B"]%string {["A-B"%string := 9]}) = true.
Proof.
assert (length ["A"; "B"]%string < 3)%nat as Hn by (simpl; lia).
split; [done|].
apply (consistency_ratio_small_order ["A"; "B"]%string {["A-B"%string := 9]} Hn).
Defined.

(** Three criteria with a single judgment. *)
Lemma consistency_ratio_nonnegative_witness :
  (1 <= length ["A"; "B"; "C"]%string)%nat /\
  judgments_in_range 3 {["A-B"%string := 9]} /\
  - 1e-9 <= result_consistencyRatio
              (calculateAHPWeights ["A"; "B"; "C"]%string {["A-B"%string := 9]}).
Proof.
assert (judgments_in_range 3 {["A-B"%string := 9]}) as Hrange
  by (apply singleton_judgments_in_range; split; simpl; lra).
split; [simpl; lia|]. split; [done|].
apply (consistency_ratio_nonnegative
         ["A"; "B"; "C"]%string {["A-B"%string := 9]}); [simpl; lia|done].
Defined.

(** Swapping two criteria, with the judgment "A is three times B" keyed as
    [A-B = 3] for the one order and as [B-A = 1/3] for the other. *)
Lemma calculateAHPWeights_order_invariant_witness :
  let criteria := ["A"; "B"]%string in
  let criteria' := ["B"; "A"]%string in
  let comparisons : gmap string R := {["A-B"%string := 3]} in
  let comparisons' : gmap string R := {["B-A"%string := 1 / 3]} in
  criteria ≡ₚ criteria' /\
  NoDup criteria /\
  judgments_in_range 2 comparisons /\
  judgments_in_range 2 comparisons' /\
  renamed_judgments criteria comparisons criteria' comparisons' /\
  (forall a,
     close_properties
       (result_weights (calculateAHPWeights criteria' comparisons') !! a)
       (result_weights (calculateAHPWeights criteria comparisons) !! a)).
Proof.
intros criteria criteria' comparisons comparisons'.
assert (criteria ≡ₚ criteria') as Hperm by apply Permutation_swap.
assert (NoDup criteria) as Hnodup.
{ apply NoDup_cons. split; [by intros [=]%list_elem_of_singleton|].
  apply NoDup_singleton. }
assert (judgments_in_range 2 comparisons) as Hrange
  by (apply singleton_judgments_in_range; split; simpl; lra).
assert (judgments_in_range 2 comparisons') as Hrange'
  by (apply singleton_judgments_in_range; split; simpl; lra).
assert (renamed_judgments criteria comparisons criteria' comparisons') as Hren.
{ intros i j a b Hij Hi Hj.
  destruct i as [|[|i]]; destruct j as [|[|j]]; try lia; try done.
  injection Hi as <-. injection Hj as <-.
  unfold built_judgment, pair_values, comparisons, comparisons'.
  replace (buildComparisonMatrix criteria {["A-B"%string := 3]})
    with [[1; 3]; [1 / 3; 1]].
  - simpl. rewrite lookup_singleton_eq. simpl.
    by rewrite bool_decide_eq_true_2 by lra.
  - unfold buildComparisonMatrix, for_loop. simpl. unfold fill_pair. simpl.
    rewrite lookup_singleton_eq. simpl. by rewrite bool_decide_eq_true_2 by lra. }
destruct (calculateAHPWeights_order_invariant criteria criteria'
            comparisons comparisons' Hperm Hnodup Hrange Hrange' Hren)
  as (Hweights & _).
done.
Defined.

(** The weights of two criteria under the judgment "A is three times B". *)
Lemma calculateWeights_built_matrix_positive_witness :
  (1 <= length ["A"; "B"]%string)%nat /\
  lookups_in_range ["A"; "B"]%string {["A-B"%string := 3]} /\
  Forall (fun w => 0 < w)
    (calculateWeights
       (buildComparisonMatrix ["A"; "B"]%string {["A-B"%string := 3]})).
Proof.
assert (lookups_in_range ["A"; "B"]%string {["A-B"%string := 3]}) as Hrange.
{ intros i j v _ _ [_ <-]%lookup_singleton_Some. split; simpl; lra. }
split; [simpl; lia|]. split; [done|].
apply (calculateWeights_built_matrix_positive
         ["A"; "B"]%string {["A-B"%string := 3]}); [simpl; lia|done].
Defined.

(** A zero forward judgment with a reverse judgment present. *)
Lemma zero_judgment_treated_as_unspecified_witness :
  let comparisons : gmap string R :=
    <["A-B"%string := 0]> {["B-A"%string := 5]} in
  comparisons !! "A-B"%string = Some 0 /\
  buildComparisonMatrix ["A"; "B"]%string comparisons =
  buildComparisonMatrix ["A"; "B"]%string (delete "A-B"%string comparisons).
Proof.
intros comparisons.
assert (comparisons !! "A-B"%string = Some 0) as Hzero
  by apply lookup_insert_eq.
split; [done|].
apply (zero_judgment_treated_as_unspecified
         ["A"; "B"]%string comparisons "A-B"%string Hzero).
Defined.

(* ===================================================================== *)
(** ** Consistent matrices, equal judgments and the keys that are read *)
(* ===================================================================== *)

Lemma prod_over_ratio n c f :
  (forall j, (j < n)%nat -> f j <> 0) ->
  prod_over n (fun j => c / f j) = c ^ n / prod_over n f.
Proof.
intros Hf. induction n as [|n IH].
- unfold prod_over. simpl. field.
- replace (S n) with (n + 1)%nat by lia. rewrite !prod_over_S, IH by (intros; apply Hf; lia).
  rewrite pow_add. simpl.
  assert (prod_over n f <> 0) as Hp.
  { clear IH. induction n as [|n IH].
    - unfold prod_over. simpl. lra.
    - replace (S n) with (n + 1)%nat by lia. rewrite prod_over_S.
      apply Rmult_integral_contrapositive. split; [apply IH; intros; apply Hf; lia|apply Hf; lia]. }
  field. split; [apply Hf; lia|done].
Qed.

Lemma Rpower_root_of_power n x P :
  (1 <= n)%nat -> 0 < x -> 0 < P ->
  Rpower (x ^ n / P) (1 / INR n) = x / Rpower P (1 / INR n).
Proof.
intros Hn Hx HP.
assert (0 < INR n) as Hn0 by (apply lt_0_INR; lia).
assert (0 < x ^ n) as Hxn by (by apply pow_lt).
unfold Rdiv at 1.
rewrite <- Rpower_mult_distr by (try done; by apply Rinv_0_lt_compat).
rewrite <- (Rpower_pow n x Hx), Rpower_mult.
replace (INR n * (1 / INR n)) with 1 by (field; lra).
rewrite Rpower_1 by done.
unfold Rpower at 1. rewrite ln_Rinv by done.
replace (1 / INR n * - ln P) with (- (1 / INR n * ln P)) by lra.
rewrite exp_Ropp. done.
Qed.

Lemma map_at_index {A} (g : R -> A) (p : list R) :
  map (fun i => g (at_index p i)) (seq 0 (length p)) = map g p.
Proof.
apply list_eq. intros i. rewrite !list_lookup_fmap.
destruct (decide (i < length p)%nat) as [Hi|Hi].
- rewrite lookup_seq_lt by done.
  destruct (lookup_lt_is_Some_2 p i Hi) as [x Hx]. rewrite Hx. simpl.
  unfold at_index. by rewrite (list_lookup_total_correct _ _ _ Hx).
- rewrite lookup_seq_ge by lia. by rewrite lookup_ge_None_2 by lia.
Qed.

Lemma sum_over_at_index (p : list R) :
  sum_over (length p) (at_index p) = Rsum p.
Proof.
unfold sum_over. transitivity (Rsum (map (fun x => x) p)).
- f_equal. apply (map_at_index (fun x => x)).
- by rewrite map_id.
Qed.

Section RatioMatrix.
Variable n : nat.
Variable p : list R.
Variable m : Matrix.
Hypothesis order_positive : (1 <= n)%nat.
Hypothesis p_positive : positive_vector n p.
Hypothesis m_length : length m = n.
Hypothesis m_ratios : ratio_matrix n p m.

Let root := Rpower (prod_over n (at_index p)) (1 / INR n).

Lemma ratio_matrix_root_positive : 0 < root.
Proof. apply exp_pos. Qed.

Lemma ratio_matrix_sum_positive : 0 < sum_over n (at_index p).
Proof. apply sum_over_positive; [done|]. apply p_positive. Qed.

Lemma ratio_matrix_mean i :
  (i < n)%nat -> computed_mean m i = at_index p i / root.
Proof.
intros Hi. destruct p_positive as [Hlen Hpos].
unfold computed_mean, Math_pow. rewrite m_length, row_product_prod_over.
rewrite (prod_over_ext n _ (fun j => at_index p i / at_index p j))
  by (intros j Hj; by apply m_ratios).
rewrite prod_over_ratio
  by (intros j Hj; apply Rgt_not_eq, Rlt_gt; by apply Hpos).
assert (0 < prod_over n (at_index p)) as HP by (by apply prod_over_positive).
assert (0 < at_index p i ^ n) as Hx by (apply pow_lt; by apply Hpos).
rewrite decide_True by (by apply Rdiv_lt_0_compat).
apply Rpower_root_of_power; [done|by apply Hpos|done].
Qed.

Lemma ratio_matrix_weight i :
  (i < n)%nat ->
  at_index (calculateWeights m) i = at_index p i / sum_over n (at_index p).
Proof.
intros Hi. rewrite at_index_calculateWeights by lia.
rewrite m_length, ratio_matrix_mean by done.
rewrite (sum_over_ext n _ (fun k => at_index p k / root))
  by (intros k Hk; by apply ratio_matrix_mean).
rewrite <- sum_over_div.
pose proof ratio_matrix_root_positive. pose proof ratio_matrix_sum_positive.
field. split; lra.
Qed.

Lemma ratio_matrix_weights :
  calculateWeights m = map (fun x => x / Rsum p) p.
Proof.
destruct p_positive as [Hlen _].
rewrite <- (map_at_index (fun x => x / Rsum p) p), Hlen.
rewrite calculateWeights_map.
replace (seq 0 n) with (seq 0 (length m)) by (by rewrite m_length).
apply map_ext_in. intros i Hi%in_seq.
rewrite <- at_index_calculateWeights by lia.
rewrite ratio_matrix_weight by lia.
by rewrite <- sum_over_at_index, Hlen.
Qed.

Lemma ratio_matrix_lambda :
  lambda_max n m (calculateWeights m) = INR n.
Proof.
destruct p_positive as [Hlen Hpos].
pose proof ratio_matrix_sum_positive as HS.
assert (0 < INR n) as Hn0 by (apply lt_0_INR; lia).
unfold lambda_max.
rewrite (sum_over_ext n _ (fun _ => INR n)).
- rewrite sum_over_const. field. lra.
- intros i Hi. unfold matrix_vector_product.
  rewrite (sum_over_ext n _ (fun _ => at_index p i / sum_over n (at_index p))).
  + rewrite sum_over_const, ratio_matrix_weight by done.
    pose proof (Hpos i Hi). field. split; lra.
  + intros j Hj. rewrite m_ratios, ratio_matrix_weight by done.
    pose proof (Hpos j Hj). field. split; lra.
Qed.

Lemma ratio_matrix_ratio :
  calculateConsistencyRatio m (calculateWeights m) = 0.
Proof.
destruct (decide (n < 3)%nat) as [Hsmall|Hlarge].
- apply calculateConsistencyRatio_small. lia.
- rewrite calculateConsistencyRatio_large by lia.
  rewrite m_length, ratio_matrix_lambda. unfold consistency_index.
  replace (INR n - INR n) with 0 by lra. unfold Rdiv. by rewrite !Rmult_0_l.
Qed.
End RatioMatrix.

Lemma prod_over_le n f g :
  (forall j, (j < n)%nat -> 0 < f j <= g j) -> prod_over n f <= prod_over n g.
Proof.
intros H. induction n as [|n IH].
- unfold prod_over. simpl. lra.
- replace (S n) with (n + 1)%nat by lia. rewrite !prod_over_S.
  assert (0 < prod_over n f)
    by (apply prod_over_positive; intros; apply H; lia).
  destruct (H n ltac:(lia)).
  apply Rmult_le_compat; try lra. apply IH. intros; apply H; lia.
Qed.

(** X2.  For an [n] by [n] matrix of the ratios [p[i] / p[j]] of positive
    priorities, with entries in the range of the doubles, [calculateWeights]
    returns the priorities divided by their sum, and the consistency ratio of
    the matrix with these weights is 0, both within 1e-9; the matrix is
    classified consistent.  (In exact arithmetic both are equalities:
    [ratio_matrix_weights], [ratio_matrix_ratio].) *)
Theorem consistent_matrix_recovers_priorities (n : nat) (p : list R) (m : Matrix) :
  (1 <= n)%nat -> positive_vector n p -> square n m -> ratio_matrix n p m ->
  matrix_in_range n m ->
  length (calculateWeights m) = n /\
  (forall i, (i < n)%nat ->
     close (at_index (calculateWeights m) i) (at_index p i / Rsum p)) /\
  close (calculateConsistencyRatio m (calculateWeights m)) 0 /\
  isConsistent (calculateConsistencyRatio m (calculateWeights m)) = true.
Proof.
intros Hn Hp [Hlen _] Hm _.
split; [by rewrite length_calculateWeights|].
rewrite (ratio_matrix_ratio n p) by done.
split; [|split; [apply close_refl|]].
- intros i Hi. rewrite (ratio_matrix_weight n p) by done.
  destruct Hp as [Hplen _].
  replace (sum_over n (at_index p)) with (Rsum p)
    by (rewrite <- Hplen; symmetry; apply sum_over_at_index).
  apply close_refl.
- unfold isConsistent. apply bool_decide_eq_true_2. lra.
Qed.

(** In exact arithmetic a criterion whose row is entry by entry at least the
    row of another criterion gets at least the other's weight. *)
Lemma dominant_row_weight (n : nat) (m : Matrix) (i k : nat) :
  length m = n -> positive_matrix n m ->
  (i < n)%nat -> (k < n)%nat ->
  (forall j, (j < n)%nat -> entry m k j <= entry m i j) ->
  at_index (calculateWeights m) k <= at_index (calculateWeights m) i.
Proof.
intros Hlen Hpos Hi Hk Hrows.
rewrite !at_index_calculateWeights by lia.
destruct (computed_mean_positive n m i Hlen Hpos Hi) as [Ei _].
destruct (computed_mean_positive n m k Hlen Hpos Hk) as [Ek _].
assert (0 < sum_over (length m) (computed_mean m)) as Hsum.
{ rewrite Hlen. apply sum_over_positive; [lia|].
  intros j Hj. by apply (computed_mean_positive n). }
apply Rmult_le_compat_r; [apply Rlt_le; by apply Rinv_0_lt_compat|].
rewrite Ei, Ek. unfold geometric_mean.
assert (0 < INR n) by (apply lt_0_INR; lia).
apply Rle_Rpower_l.
- apply Rlt_le, Rdiv_lt_0_compat; lra.
- split; [apply prod_over_positive; intros; by apply Hpos|].
  apply prod_over_le. intros j Hj. split; [by apply Hpos|by apply Hrows].
Qed.

(** X5.  In an [n] by [n] matrix with entries in the range of the doubles, a
    criterion whose row is entry by entry at least the row of another
    criterion gets at least the other's weight, up to the tolerance 1e-9. *)
Theorem dominant_row_weighs_more (n : nat) (m : Matrix) (i k : nat) :
  square n m -> matrix_in_range n m ->
  (i < n)%nat -> (k < n)%nat ->
  (forall j, (j < n)%nat -> entry m k j <= entry m i j) ->
  at_index (calculateWeights m) k <= at_index (calculateWeights m) i + 1e-9.
Proof.
intros [Hlen _] Hrange Hi Hk Hrows.
pose proof (dominant_row_weight n m i k Hlen
              (matrix_in_range_positive _ _ Hrange) Hi Hk Hrows).
lra.
Qed.

Lemma fill_pair_same_lookups criteria comparisons comparisons' i j m :
  same_lookups criteria comparisons comparisons' ->
  (i < length criteria)%nat -> (j < length criteria)%nat ->
  fill_pair criteria comparisons' i j m = fill_pair criteria comparisons i j m.
Proof.
intros Hsame Hi Hj. unfold fill_pair.
by rewrite (Hsame i j Hi Hj), (Hsame j i Hj Hi).
Qed.

Lemma buildComparisonMatrix_same_lookups criteria comparisons comparisons' :
  same_lookups criteria comparisons comparisons' ->
  buildComparisonMatrix criteria comparisons' =
  buildComparisonMatrix criteria comparisons.
Proof.
intros Hsame. unfold buildComparisonMatrix.
apply for_loop_ext. intros i m Hi. apply for_loop_ext. intros j m' Hj.
apply fill_pair_same_lookups; [done|lia|lia].
Qed.

(** X6.  The builder reads the mapping only under the keys [a-b] of two
    criteria of the list: two mappings that agree on these keys give the same
    matrix and the same result of [calculateAHPWeights], whatever else they
    hold. *)
Theorem only_pair_keys_are_read
    (criteria : list string) (comparisons comparisons' : gmap string R) :
  same_lookups criteria comparisons comparisons' ->
  buildComparisonMatrix criteria comparisons' =
    buildComparisonMatrix criteria comparisons /\
  calculateAHPWeights criteria comparisons' =
    calculateAHPWeights criteria comparisons.
Proof.
intros Hsame.
pose proof (buildComparisonMatrix_same_lookups _ _ _ Hsame) as HM.
split; [done|]. unfold calculateAHPWeights. by rewrite HM.
Qed.

Lemma last_occurrence (criteria : list string) a :
  a ∈ criteria ->
  exists i, criteria !! i = Some a /\
            forall j, (i < j)%nat -> criteria !! j <> Some a.
Proof.
induction criteria as [|c criteria IH]; intros Ha; [by apply elem_of_nil in Ha|].
destruct (decide (a ∈ criteria)) as [Hin|Hnotin].
- destruct (IH Hin) as (i & Hi & Hlast). exists (S i). split; [done|].
  intros [|j] Hj; [lia|]. apply Hlast. lia.
- apply elem_of_cons in Ha as [->|Ha]; [|done].
  exists 0%nat. split; [done|]. intros [|j] Hj; [lia|]. simpl.
  intros Hj'. apply Hnotin. by eapply list_elem_of_lookup_2.
Qed.

Lemma weights_object_is_Some criteria weightArray a :
  is_Some (weights_object criteria weightArray !! a) <->
  a ∈ criteria /\ a <> "__proto__"%string.
Proof.
split.
- intros Hsome. split.
  + destruct (decide (a ∈ criteria)) as [|Hnotin]; [done|].
    rewrite weights_object_absent in Hsome by done. by destruct Hsome.
  + intros ->. rewrite weights_object_proto in Hsome. by destruct Hsome.
- intros [(i & Hi & Hlast)%last_occurrence Hproto].
  rewrite (weights_object_last _ _ i a) by done. eauto.
Qed.

(** X7.  The keys of the [weights] object [calculateAHPWeights] returns
    are exactly the labels of the criteria list other than [__proto__]. *)
Theorem weights_object_keys (criteria : list string) (comparisons : gmap string R) :
  dom (result_weights (calculateAHPWeights criteria comparisons))
    = list_to_set criteria ∖ {["__proto__"%string]}.
Proof.
apply set_eq. intros a.
rewrite elem_of_dom, elem_of_difference, elem_of_list_to_set, elem_of_singleton.
simpl. apply weights_object_is_Some.
Qed.

Lemma no_preference_entry criteria comparisons i j :
  no_preference criteria comparisons ->
  (i < length criteria)%nat -> (j < length criteria)%nat ->
  entry (buildComparisonMatrix criteria comparisons) i j = 1.
Proof.
intros Hnone Hi Hj. rewrite buildComparisonMatrix_entry by done.
assert (forall p q, (p < length criteria)%nat -> (q < length criteria)%nat ->
          pair_values comparisons (criteria_at criteria p) (criteria_at criteria q)
            = (1, 1)) as Hpair.
{ intros p q Hp Hq. unfold pair_values.
  pose proof (Hnone p q) as Hf. pose proof (Hnone q p) as Hb.
  destruct (comparisons !! pair_key (criteria_at criteria p) (criteria_at criteria q))
    as [v|]; simpl.
  - destruct (Hf v Hp Hq eq_refl) as [->| ->].
    + rewrite bool_decide_eq_false_2 by (intros H; by apply H).
      destruct (comparisons !! pair_key (criteria_at criteria q) (criteria_at criteria p))
        as [v'|]; simpl; [|done].
      destruct (Hb v' Hq Hp eq_refl) as [->| ->].
      * by rewrite bool_decide_eq_false_2 by (intros H; by apply H).
      * rewrite bool_decide_eq_true_2 by lra. f_equal. lra.
    + rewrite bool_decide_eq_true_2 by lra. f_equal. lra.
  - destruct (comparisons !! pair_key (criteria_at criteria q) (criteria_at criteria p))
      as [v'|]; simpl; [|done].
    destruct (Hb v' Hq Hp eq_refl) as [->| ->].
    + by rewrite bool_decide_eq_false_2 by (intros H; by apply H).
    + rewrite bool_decide_eq_true_2 by lra. f_equal. lra. }
repeat case_decide; [done| |]; by rewrite Hpair.
Qed.

(** X1.  When every judgment the builder can look up is absent, 0 or 1,
    every criterion whose label is not [__proto__] gets the weight [1 / n],
    the consistency ratio is 0 within 1e-9 and the result is consistent. *)
Theorem equal_judgments_give_equal_weights
    (criteria : list string) (comparisons : gmap string R) :
  (1 <= length criteria)%nat ->
  no_preference criteria comparisons ->
  let result := calculateAHPWeights criteria comparisons in
  (forall a, a ∈ criteria -> a <> "__proto__"%string ->
     result_weights result !! a = Some (1 / INR (length criteria))) /\
  close (result_consistencyRatio result) 0 /\
  result_isConsistent result = true.
Proof.
intros Hn Hnone result.
set (n := length criteria). set (M := buildComparisonMatrix criteria comparisons).
destruct (buildComparisonMatrix_square criteria comparisons) as [Hlen _].
fold M n in Hlen.
assert (positive_vector n (replicate n 1)) as Hp.
{ split; [by rewrite length_replicate|]. intros i Hi. unfold at_index.
  rewrite lookup_total_replicate_2 by done. lra. }
assert (ratio_matrix n (replicate n 1) M) as HM.
{ intros i j Hi Hj. unfold M. rewrite no_preference_entry by done.
  unfold at_index. rewrite !lookup_total_replicate_2 by done. lra. }
assert (forall i, (i < n)%nat -> at_index (calculateWeights M) i = 1 / INR n)
  as Hw.
{ intros i Hi. rewrite (ratio_matrix_weight n (replicate n 1)) by done.
  rewrite (sum_over_ext n _ (fun _ => 1)).
  - rewrite sum_over_const. unfold at_index.
    rewrite lookup_total_replicate_2 by done. by rewrite Rmult_1_r.
  - intros k Hk. unfold at_index. by rewrite lookup_total_replicate_2. }
assert (result_consistencyRatio result = 0) as Hcr
  by (by apply (ratio_matrix_ratio n (replicate n 1))).
split; [|split].
- intros a (i & Hi & Hlast)%last_occurrence Hproto. simpl.
  rewrite (weights_object_last _ _ i a) by done.
  rewrite Hw; [done|]. by eapply lookup_lt_Some.
- rewrite Hcr. apply close_refl.
- unfold result in *. simpl in *. rewrite Hcr. unfold isConsistent.
  apply bool_decide_eq_true_2. lra.
Qed.

(** X4.  For two distinct criteria, neither labelled [__proto__], with the
    judgment [a-b = v] for a [v] between 1e-150 and 1e150, the weights are
    [v / (v + 1)] for [a] and [1 / (v + 1)] for [b] within 1e-9, and the
    consistency ratio is 0. *)
Theorem two_criteria_weights (a b : string) (comparisons : gmap string R) (v : R) :
  a <> b -> a <> "__proto__"%string -> b <> "__proto__"%string ->
  in_double_range 2 v ->
  comparisons !! pair_key a b = Some v ->
  let result := calculateAHPWeights [a; b] comparisons in
  close_properties (result_weights result !! a) (Some (v / (v + 1))) /\
  close_properties (result_weights result !! b) (Some (1 / (v + 1))) /\
  result_consistencyRatio result = 0.
Proof.
intros Hab Ha Hb [Hv _] Hfwd result.
assert (buildComparisonMatrix [a; b] comparisons = [[1; v]; [1 / v; 1]]) as HM.
{ unfold buildComparisonMatrix, for_loop. simpl. unfold fill_pair.
  change (criteria_at [a; b] 0) with a. change (criteria_at [a; b] 1) with b.
  rewrite Hfwd. simpl. by rewrite bool_decide_eq_true_2 by lra. }
assert (positive_vector 2 [v; 1]) as Hp.
{ split; [done|]. intros [|[|i]] Hi; [| |lia]; unfold at_index; simpl; lra. }
assert (ratio_matrix 2 [v; 1] [[1; v]; [1 / v; 1]]) as Hratio.
{ intros [|[|i]] [|[|j]] Hi Hj; try lia; unfold entry, at_index; simpl;
    field; lra. }
assert (calculateWeights [[1; v]; [1 / v; 1]] = [v / (v + 1); 1 / (v + 1)]) as HW.
{ rewrite (ratio_matrix_weights 2 [v; 1]) by done || lia. simpl.
  f_equal; [|f_equal]; field; lra. }
unfold result, calculateAHPWeights. simpl. rewrite HM, HW.
split; [|split].
- rewrite (weights_object_last _ _ 0 a); [apply close_refl|done|done|].
  intros [|[|j]] Hj; simpl; [lia| |done]. congruence.
- rewrite (weights_object_last _ _ 1 b); [apply close_refl|done|done|].
  intros [|[|j]] Hj; simpl; lia || done.
- by apply calculateConsistencyRatio_small; simpl; lia.
Qed.

(** Order invariance needs distinct labels.  When a label occurs twice, the weights
    object holds the weight of its last position; exchanging the two positions,
    with the judgment between them renamed from 2 to 1/2, changes the weight
    under the name from 1/3 to 2/3. *)
Lemma duplicate_labels_depend_on_order :
  close_properties
    (result_weights (calculateAHPWeights ["A"; "A"]%string {["A-A"%string := 2]})
       !! "A"%string) (Some (1 / 3)) /\
  close_properties
    (result_weights (calculateAHPWeights ["A"; "A"]%string {["A-A"%string := 1 / 2]})
       !! "A"%string) (Some (2 / 3)).
Proof.
assert (forall v, 0 < v ->
          result_weights (calculateAHPWeights ["A"; "A"]%string {["A-A"%string := v]})
            !! "A"%string = Some (1 / (v + 1))) as Hlast.
{ intros v Hv.
  assert (buildComparisonMatrix ["A"; "A"]%string {["A-A"%string := v]}
          = [[1; v]; [1 / v; 1]]) as HM.
  { unfold buildComparisonMatrix, for_loop. simpl. unfold fill_pair. simpl.
    rewrite lookup_singleton_eq. simpl. by rewrite bool_decide_eq_true_2 by lra. }
  assert (positive_vector 2 [v; 1]) as Hp.
  { split; [done|]. intros [|[|i]] Hi; [| |lia]; unfold at_index; simpl; lra. }
  assert (ratio_matrix 2 [v; 1] [[1; v]; [1 / v; 1]]) as Hratio.
  { intros [|[|i]] [|[|j]] Hi Hj; try lia; unfold entry, at_index; simpl;
      field; lra. }
  unfold calculateAHPWeights. simpl. rewrite HM.
  rewrite (ratio_matrix_weights 2 [v; 1]) by done || lia.
  rewrite (weights_object_last _ _ 1 "A"%string);
    [|done|done|intros [|[|j]] Hj; lia || done].
  unfold at_index. simpl. f_equal. field. lra. }
split.
- rewrite Hlast by lra. simpl. unfold close.
  replace (1 / (2 + 1) - 1 / 3) with 0 by lra. rewrite Rabs_R0. lra.
- rewrite Hlast by lra. simpl. unfold close.
  replace (1 / (1 / 2 + 1) - 2 / 3) with 0 by lra. rewrite Rabs_R0. lra.
Qed.

(** X8.  [getSaatyInterpretation] returns ['Equal importance'] exactly for
    the values other than 2, 3, ..., 9: for 1, and for every number that is
    not on the scale. *)
Theorem getSaatyInterpretation_default (value : R) :
  getSaatyInterpretation value = "Equal importance"%string <->
  ~ (value = 2 \/ value = 3 \/ value = 4 \/ value = 5 \/
     value = 6 \/ value = 7 \/ value = 8 \/ value = 9).
Proof.
unfold getSaatyInterpretation, interpretations.
destruct (decide (value = 1)) as [->|H1].
{ simpl. split; [intros _ H; intuition lra|done]. }
repeat (case_decide;
  [subst value; simpl; split;
     [discriminate|intros Hnot; exfalso; apply Hnot; auto 10]|]).
split; [intros _ Hnot; intuition|done].
Qed.

(* ===================================================================== *)
(** ** Properties of the EU standards *)
(* ===================================================================== *)

Import EuStandards.

Ltac table_cases H :=
  unfold EU_STANDARDS in H; simpl in H;
  repeat (let E := fresh "E" in
          destruct (decide (_ = _)) as [E|E] in H;
          [symmetry in E; subst; injection H as <-|]);
  [..|discriminate H].

Ltac decide_bounds :=
  unfold isOptimal, getCategory, read_standard, below, above, in_category,
    in_range; simpl;
  repeat case_bool_decide; simpl; try done; try lra.

Lemma getDefaultProfile_lookup criterion :
  getDefaultProfile !! criterion =
    (fun s => mkProfileEntry (optimalMin s) (optimalMax s))
      <$> own_property EU_STANDARDS criterion.
Proof.
unfold getDefaultProfile, EU_STANDARDS. simpl.
rewrite !lookup_insert, lookup_empty.
repeat (case_decide; [subst; simpl; done|]).
repeat (rewrite decide_False by done). done.
Qed.

(** X9.  Every entry of the default profile has both bounds, and [isOptimal]
    accepts a non-negative value for a criterion exactly when the value lies
    between the bounds of the criterion's entry.  (A value that is no number,
    [NaN] or [undefined], fails every comparison of the code and is not a
    value of the embedding.) *)
Theorem default_profile_is_optimal_range
    (criterion : string) (entry : ProfileEntry) (value : R) :
  getDefaultProfile !! criterion = Some entry ->
  0 <= value ->
  exists lo hi,
    entry = mkProfileEntry (Some lo) (Some hi) /\
    (isOptimal criterion value = true <-> lo <= value <= hi).
Proof.
rewrite getDefaultProfile_lookup.
destruct (own_property EU_STANDARDS criterion) as [s|] eqn:Hown; [|done].
intros [= <-] Hvalue. table_cases Hown; simpl; eexists _, _; (split; [done|]);
  decide_bounds; split; (done || lra || intros; lra).
Qed.

(** X10.  For a criterion of the table, a non-negative value that
    [isOptimal] accepts is rated ['excellent'] or ['good'] by
    [getCategory]. *)
Theorem optimal_value_is_rated_good
    (criterion : string) (standard : Standard) (value : R) :
  own_property EU_STANDARDS criterion = Some standard ->
  0 <= value ->
  isOptimal criterion value = true ->
  getCategory criterion value = Normal "excellent"%string \/
  getCategory criterion value = Normal "good"%string.
Proof.
intros Hown. table_cases Hown; decide_bounds; auto.
Qed.

(** X11.  For a criterion of the table, a non-negative value that
    [getCategory] rates ['excellent'] is accepted by [isOptimal]. *)
Theorem excellent_value_is_optimal
    (criterion : string) (standard : Standard) (value : R) :
  own_property EU_STANDARDS criterion = Some standard ->
  0 <= value ->
  getCategory criterion value = Normal "excellent"%string ->
  isOptimal criterion value = true.
Proof.
intros Hown Hvalue. table_cases Hown; decide_bounds.
Qed.

(** X12.  For a criterion of the table and a non-negative value,
    [getCategory] returns ['poor'] exactly when the value lies outside the
    limits [min] and [max] of the standard. *)
Theorem poor_iff_outside_limits
    (criterion : string) (standard : Standard) (value : R) :
  own_property EU_STANDARDS criterion = Some standard ->
  0 <= value ->
  exists lo hi,
    standard_min standard = Some lo /\ standard_max standard = Some hi /\
    (getCategory criterion value = Normal "poor"%string <->
     value < lo \/ hi < value).
Proof.
intros Hown Hvalue. table_cases Hown; eexists _, _;
  (split; [done|]); (split; [done|]);
  decide_bounds; split; (done || lra || (intros [|]; lra) || (intros _; lra)).
Qed.

(** X13.  For a name that is no key of the table: when it names a property
    inherited from [Object.prototype], [isOptimal] returns [true] for every
    value and [getCategory] throws a [TypeError]; otherwise [isOptimal]
    returns [false] and [getCategory] returns ['unknown']. *)
Theorem unlisted_criterion (criterion : string) (value : R) :
  own_property EU_STANDARDS criterion = None ->
  if bool_decide (criterion ∈ Object_prototype_properties)
  then isOptimal criterion value = true /\
       getCategory criterion value = TypeError
  else isOptimal criterion value = false /\
       getCategory criterion value = Normal "unknown"%string.
Proof.
intros Hown. unfold isOptimal, getCategory, read_standard. rewrite Hown.
by case_bool_decide.
Qed.

(* ===================================================================== *)
(** ** Properties of the mock API *)
(* ===================================================================== *)

Import MockApi.

Section Sort.
Context {A : Type}.
Variable compare : A -> A -> R.
Let before (a b : A) : Prop := compare a b <= 0.
Hypothesis before_total : forall a b, before a b \/ before b a.
Hypothesis before_trans : forall a b c, before a b -> before b c -> before a c.

Lemma sorted_insert_Permutation x l : sorted_insert compare x l ≡ₚ x :: l.
Proof.
induction l as [|y l IH]; simpl; [done|].
case_bool_decide; [done|]. rewrite IH. apply Permutation_swap.
Qed.

Lemma Array_sort_Permutation l : Array_sort compare l ≡ₚ l.
Proof.
induction l as [|x l IH]; simpl; [done|].
by rewrite sorted_insert_Permutation, IH.
Qed.

Lemma sorted_insert_sorted x l :
  StronglySorted before l -> StronglySorted before (sorted_insert compare x l).
Proof.
induction 1 as [|y l Hsorted IH Hall]; simpl.
- by repeat constructor.
- case_bool_decide as Hxy.
  + constructor; [by constructor|]. constructor; [done|].
    eapply Forall_impl; [done|]. intros z Hz. by eapply before_trans.
  + constructor; [done|].
    rewrite sorted_insert_Permutation. constructor; [|done].
    destruct (before_total x y); [done|done].
Qed.

Lemma Array_sort_sorted l : StronglySorted before (Array_sort compare l).
Proof.
induction l as [|x l IH]; simpl; [constructor|]. by apply sorted_insert_sorted.
Qed.
End Sort.

Lemma StronglySorted_lookup {A} (R : A -> A -> Prop) (l : list A) i j x y :
  StronglySorted R l -> (i < j)%nat ->
  l !! i = Some x -> l !! j = Some y -> R x y.
Proof.
intros Hsorted. revert i j. induction Hsorted as [|z l Hsorted IH Hall];
  intros i j Hij Hi Hj; [done|].
destruct i as [|i], j as [|j]; try lia; simpl in *.
- injection Hi as ->. rewrite Forall_forall in Hall. apply Hall.
  by eapply list_elem_of_lookup_2.
- apply (IH i j); [lia|done|done].
Qed.

Lemma evaluateRooms_rankings roomsData random :
  Evaluation.rankings (evaluateRooms roomsData random) =
    imap to_ranking (Array_sort by_final_score (score_rooms roomsData random)).
Proof. reflexivity. Qed.

Lemma sorted_by_final_score l :
  StronglySorted (fun a b => by_final_score a b <= 0)
    (Array_sort by_final_score l).
Proof.
apply Array_sort_sorted; unfold by_final_score.
- intros a b. lra.
- intros a b c. lra.
Qed.

Lemma tempScore_bounds t : 3 / 10 <= tempScore t <= 1.
Proof. unfold tempScore. repeat case_match; lra. Qed.

Lemma co2Score_bounds c : 1 / 5 <= co2Score c <= 1.
Proof. unfold co2Score. repeat case_match; lra. Qed.

Lemma humidityScore_bounds h : 3 / 10 <= humidityScore h <= 1.
Proof. unfold humidityScore. repeat case_match; lra. Qed.

Lemma aqScore_bounds a : 1 / 5 <= aqScore a <= 1.
Proof. unfold aqScore. repeat case_match; lra. Qed.

Lemma tempScore_full t : tempScore t = 1 -> 20 <= t <= 24.
Proof.
unfold tempScore. destruct (bool_decide (20 <= t)) eqn:E1;
  destruct (bool_decide (t <= 24)) eqn:E2; simpl;
  try (apply bool_decide_eq_true in E1); try (apply bool_decide_eq_true in E2);
  [lra|..]; repeat case_match; lra.
Qed.

Lemma humidityScore_full h : humidityScore h = 1 -> 40 <= h <= 60.
Proof.
unfold humidityScore. destruct (bool_decide (40 <= h)) eqn:E1;
  destruct (bool_decide (h <= 60)) eqn:E2; simpl;
  try (apply bool_decide_eq_true in E1); try (apply bool_decide_eq_true in E2);
  [lra|..]; repeat case_match; lra.
Qed.

Lemma co2Score_full c : co2Score c = 1 -> c < 600.
Proof. unfold co2Score. repeat case_bool_decide; lra. Qed.

Lemma aqScore_full a : aqScore a = 1 -> a < 50.
Proof. unfold aqScore. repeat case_bool_decide; lra. Qed.

(** [scoreRoom] by cases on which readings are truthy, with the four
    partial scores kept abstract. *)
Ltac score_cases room :=
  unfold scoreRoom, add_score;
  pose proof (tempScore_bounds (number_of (Room.temperature room)));
  pose proof (co2Score_bounds (number_of (Room.co2 room)));
  pose proof (humidityScore_bounds (number_of (Room.humidity room)));
  pose proof (aqScore_bounds (number_of (Room.air_quality room)));
  destruct (truthy (Room.temperature room)),
           (truthy (Room.co2 room)),
           (truthy (Room.humidity room)),
           (truthy (Room.air_quality room)); simpl.

(** X14.  [scoreRoom] returns a number between 0 and 1; it is 0 exactly when
    no reading of the room is truthy, and at least 1/5 otherwise. *)
Theorem scoreRoom_range (room : Room.t) :
  0 <= scoreRoom room <= 1 /\
  (scoreRoom room = 0 <->
   truthy (Room.temperature room) = false /\ truthy (Room.co2 room) = false /\
   truthy (Room.humidity room) = false /\ truthy (Room.air_quality room) = false) /\
  (scoreRoom room <> 0 -> 1 / 5 <= scoreRoom room).
Proof.
score_cases room; (split; [lra|split; [split; [intros; lra|intros (? & ? & ? & ?); done || lra]|intros; lra]]).
Qed.

Lemma scoreRoom_full (room : Room.t) :
  scoreRoom room = 1 ->
  (truthy (Room.temperature room) = true ->
   tempScore (number_of (Room.temperature room)) = 1) /\
  (truthy (Room.co2 room) = true ->
   co2Score (number_of (Room.co2 room)) = 1) /\
  (truthy (Room.humidity room) = true ->
   humidityScore (number_of (Room.humidity room)) = 1) /\
  (truthy (Room.air_quality room) = true ->
   aqScore (number_of (Room.air_quality room)) = 1).
Proof.
score_cases room; intros Hfull; repeat split; intros; done || lra.
Qed.

Lemma truthy_Some (x : R) : x <> 0 -> truthy (Some x) = true.
Proof. intros Hx. simpl. by apply bool_decide_eq_true_2. Qed.

(** X15.  When [scoreRoom] returns 1, every reading of the room that counts
    (non-zero; positive for CO2 and air quality) is accepted by [isOptimal]
    for the corresponding standard. *)
Theorem full_score_readings_are_optimal (room : Room.t) :
  scoreRoom room = 1 ->
  (forall t, Room.temperature room = Some t -> t <> 0 ->
     isOptimal "temperature" t = true) /\
  (forall c, Room.co2 room = Some c -> 0 < c ->
     isOptimal "co2" c = true) /\
  (forall h, Room.humidity room = Some h -> h <> 0 ->
     isOptimal "humidity" h = true) /\
  (forall a, Room.air_quality room = Some a -> 0 < a ->
     isOptimal "airQuality" a = true).
Proof.
intros (Ht & Hc & Hh & Ha)%scoreRoom_full. repeat split.
- intros t E Hne. rewrite E in Ht. apply tempScore_full in Ht;
    [|by apply truthy_Some]. simpl in Ht. decide_bounds.
- intros c E Hpos. rewrite E in Hc. apply co2Score_full in Hc;
    [|apply truthy_Some; lra]. simpl in Hc. decide_bounds.
- intros h E Hne. rewrite E in Hh. apply humidityScore_full in Hh;
    [|by apply truthy_Some]. simpl in Hh. decide_bounds.
- intros a E Hpos. rewrite E in Ha. apply aqScore_full in Ha;
    [|apply truthy_Some; lra]. simpl in Ha. decide_bounds.
Qed.

Lemma score_rooms_elem_of roomsData random s :
  s ∈ score_rooms roomsData random ->
  exists index room,
    roomsData !! index = Some room /\
    Scored.room s = room /\
    Scored.final_score s = scoreRoom room /\
    Scored.comfort_score s =
      scoreRoom room * 0.9 + random (2 * index)%nat * 0.1 /\
    Scored.health_score s =
      scoreRoom room * 0.95 + random (2 * index + 1)%nat * 0.05 /\
    Scored.usability_score s = if Room.has_projector room then 0.9 else 0.6.
Proof.
unfold score_rooms. intros (index & room & -> & Hroom)%elem_of_lookup_imap.
exists index, room. by repeat split.
Qed.

Lemma rankings_elem_of roomsData random e :
  e ∈ Evaluation.rankings (evaluateRooms roomsData random) ->
  exists k s, e = to_ranking k s /\ s ∈ score_rooms roomsData random.
Proof.
rewrite evaluateRooms_rankings.
intros (k & s & -> & Hs)%elem_of_lookup_imap. exists k, s. split; [done|].
rewrite <- (Array_sort_Permutation by_final_score). by eapply list_elem_of_lookup_2.
Qed.

(** X16.  The rankings of [evaluateRooms] are as many as the rooms, the
    entry at position [k] has rank [k + 1], and the final scores do not
    increase along the list. *)
Theorem rankings_are_sorted (roomsData : list Room.t) (random : nat -> R) :
  let rankings := Evaluation.rankings (evaluateRooms roomsData random) in
  length rankings = length roomsData /\
  (forall k e, rankings !! k = Some e -> Ranking.rank e = (k + 1)%nat) /\
  (forall k l e e', (k < l)%nat ->
     rankings !! k = Some e -> rankings !! l = Some e' ->
     Ranking.final_score e' <= Ranking.final_score e).
Proof.
intros rankings. unfold rankings. rewrite evaluateRooms_rankings.
split; [|split].
- rewrite length_imap, (Permutation_length (Array_sort_Permutation _ _)).
  unfold score_rooms. by rewrite length_imap.
- intros k e. rewrite list_lookup_imap.
  destruct (Array_sort _ _ !! k); [|done]. by intros [= <-].
- intros k l e e' Hkl. rewrite !list_lookup_imap.
  destruct (Array_sort _ _ !! k) as [s|] eqn:Hk; [|done].
  destruct (Array_sort _ _ !! l) as [s'|] eqn:Hl; [|done].
  intros [= <-] [= <-]. simpl.
  pose proof (StronglySorted_lookup _ _ k l s s'
                (sorted_by_final_score _) Hkl Hk Hl) as Hle.
  unfold by_final_score in Hle. simpl in Hle. lra.
Qed.

(** X17.  The rankings of [evaluateRooms] list the rooms of the data, each
    once (their ids are a permutation of the rooms' ids), and every entry
    carries the fields of a room of the data and that room's [scoreRoom] as
    its final score. *)
Theorem rankings_list_every_room (roomsData : list Room.t) (random : nat -> R) :
  let rankings := Evaluation.rankings (evaluateRooms roomsData random) in
  map Ranking.room_id rankings ≡ₚ map Room.room_id roomsData /\
  (forall e, e ∈ rankings ->
     exists room, room ∈ roomsData /\
       Ranking.room_id e = Room.room_id room /\
       Ranking.room_name e = Room.name room /\
       Ranking.final_score e = scoreRoom room /\
       Ranking.temperature e = Room.temperature room /\
       Ranking.co2 e = Room.co2 room /\
       Ranking.humidity e = Room.humidity room /\
       Ranking.air_quality e = Room.air_quality room /\
       Ranking.seating_capacity e = Room.seating_capacity room /\
       Ranking.has_projector e = Room.has_projector room /\
       Ranking.computers e = Room.computers room /\
       Ranking.has_robots e = Room.has_robots room).
Proof.
intros rankings. split.
- unfold rankings. rewrite evaluateRooms_rankings.
  change (map Ranking.room_id (imap to_ranking ?l))
    with (Ranking.room_id <$> imap to_ranking l).
  rewrite fmap_imap.
  rewrite (imap_ext _ (const (fun s => Room.room_id (Scored.room s))))
    by done.
  rewrite imap_const, Array_sort_Permutation.
  unfold score_rooms. rewrite fmap_imap.
  rewrite (imap_ext _ (const Room.room_id)) by done.
  by rewrite imap_const.
- intros e (k & s & -> & Hs)%rankings_elem_of.
  apply score_rooms_elem_of in Hs
    as (index & room & Hroom & Hs & Hfinal & _).
  exists room. split; [by eapply list_elem_of_lookup_2|].
  simpl. rewrite Hs, Hfinal. by repeat split.
Qed.

(** X18.  With every result of [Math.random] in [[0, 1)], every ranking
    entry has a final score, a comfort score and a health score in [[0, 1]]
    and a usability score of 0.9 or 0.6. *)
Theorem ranking_scores_in_range (roomsData : list Room.t) (random : nat -> R) :
  (forall k, 0 <= random k < 1) ->
  forall e, e ∈ Evaluation.rankings (evaluateRooms roomsData random) ->
    0 <= Ranking.final_score e <= 1 /\
    0 <= Ranking.comfort_score e <= 1 /\
    0 <= Ranking.health_score e <= 1 /\
    (Ranking.usability_score e = 0.9 \/ Ranking.usability_score e = 0.6).
Proof.
intros Hrandom e (k & s & -> & Hs)%rankings_elem_of.
apply score_rooms_elem_of in Hs
  as (index & room & Hroom & Hs & Hfinal & Hcomfort & Hhealth & Husability).
simpl. rewrite Hfinal, Hcomfort, Hhealth, Husability.
destruct (scoreRoom_range room) as [Hrange _].
pose proof (Hrandom (2 * index)%nat). pose proof (Hrandom (2 * index + 1)%nat).
repeat split; try lra. destruct (Room.has_projector room); auto.
Qed.

(* ===================================================================== *)
(** ** The further properties at concrete inputs *)
(* ===================================================================== *)

(** Three criteria without any judgment. *)
Lemma equal_judgments_give_equal_weights_witness :
  (1 <= length ["a"; "b"; "c"]%string)%nat /\
  no_preference ["a"; "b"; "c"]%string ∅ /\
  result_weights (calculateAHPWeights ["a"; "b"; "c"]%string ∅) !! "b"%string
    = Some (1 / INR 3) /\
  close (result_consistencyRatio (calculateAHPWeights ["a"; "b"; "c"]%string ∅)) 0.
Proof.
assert (no_preference ["a"; "b"; "c"]%string ∅) as Hnone.
{ intros i j v _ _ Hv. by rewrite lookup_empty in Hv. }
split; [simpl; lia|]. split; [done|].
destruct (equal_judgments_give_equal_weights ["a"; "b"; "c"]%string ∅
            ltac:(simpl; lia) Hnone) as (Hw & Hcr & _).
split; [|done]. apply Hw; [set_solver|done].
Defined.

(** The matrix of the priorities 2 and 1. *)
Lemma consistent_matrix_recovers_priorities_witness :
  (1 <= 2)%nat /\
  positive_vector 2 [2; 1] /\
  square 2 [[1; 2]; [1 / 2; 1]] /\
  ratio_matrix 2 [2; 1] [[1; 2]; [1 / 2; 1]] /\
  matrix_in_range 2 [[1; 2]; [1 / 2; 1]] /\
  close (at_index (calculateWeights [[1; 2]; [1 / 2; 1]]) 0)
        (at_index [2; 1] 0 / Rsum [2; 1]) /\
  close (calculateConsistencyRatio [[1; 2]; [1 / 2; 1]]
           (calculateWeights [[1; 2]; [1 / 2; 1]])) 0.
Proof.
assert (positive_vector 2 [2; 1]) as Hp.
{ split; [done|]. intros [|[|i]] Hi; [| |lia]; unfold at_index; simpl; lra. }
assert (square 2 [[1; 2]; [1 / 2; 1]]) as Hsq by concrete_square.
assert (ratio_matrix 2 [2; 1] [[1; 2]; [1 / 2; 1]]) as Hratio.
{ intros [|[|i]] [|[|j]] Hi Hj; try lia; unfold entry, at_index; simpl; lra. }
assert (matrix_in_range 2 [[1; 2]; [1 / 2; 1]]) as Hrange by concrete_in_range.
split; [lia|]. split; [done|]. split; [done|]. split; [done|]. split; [done|].
destruct (consistent_matrix_recovers_priorities 2 [2; 1] [[1; 2]; [1 / 2; 1]]
            ltac:(lia) Hp Hsq Hratio Hrange) as (_ & Hw & Hcr & _).
split; [|done]. apply Hw. lia.
Defined.

(** Two criteria with the judgment "a is three times b". *)
Lemma two_criteria_weights_witness :
  "a"%string <> "b"%string /\
  "a"%string <> "__proto__"%string /\ "b"%string <> "__proto__"%string /\
  in_double_range 2 3 /\
  ({["a-b"%string := 3]} : gmap string R) !! pair_key "a" "b" = Some 3 /\
  close_properties
    (result_weights (calculateAHPWeights ["a"; "b"]%string {["a-b"%string := 3]})
       !! "a"%string)
    (Some (3 / (3 + 1))).
Proof.
assert (({["a-b"%string := 3]} : gmap string R) !! pair_key "a" "b" = Some 3)
  as Hfwd by apply lookup_singleton_eq.
assert (in_double_range 2 3) as Hrange by (split; simpl; lra).
split; [done|]. split; [done|]. split; [done|]. split; [done|]. split; [done|].
apply (two_criteria_weights "a" "b" {["a-b"%string := 3]} 3); done.
Defined.

(** The first row of the matrix of "a is twice b" dominates the second. *)
Lemma dominant_row_weighs_more_witness :
  let m := [[1; 2]; [1 / 2; 1]] in
  square 2 m /\ matrix_in_range 2 m /\ (0 < 2)%nat /\ (1 < 2)%nat /\
  (forall j, (j < 2)%nat -> entry m 1 j <= entry m 0 j) /\
  at_index (calculateWeights m) 1 <= at_index (calculateWeights m) 0 + 1e-9.
Proof.
intros m.
assert (square 2 m) as Hsq by concrete_square.
assert (matrix_in_range 2 m) as Hrange by concrete_in_range.
assert (forall j, (j < 2)%nat -> entry m 1 j <= entry m 0 j) as Hrows.
{ intros [|[|j]] Hj; [| |lia]; unfold entry, at_index; simpl; lra. }
split; [done|]. split; [done|]. split; [lia|]. split; [lia|]. split; [done|].
apply (dominant_row_weighs_more 2 m 0 1); done || lia.
Defined.

(** A judgment about criteria that are not in the list changes nothing. *)
Lemma only_pair_keys_are_read_witness :
  let comparisons : gmap string R := {["a-b"%string := 3]} in
  let comparisons' : gmap string R := <["x-y"%string := 7]> comparisons in
  same_lookups ["a"; "b"]%string comparisons comparisons' /\
  calculateAHPWeights ["a"; "b"]%string comparisons' =
  calculateAHPWeights ["a"; "b"]%string comparisons.
Proof.
intros comparisons comparisons'.
assert (same_lookups ["a"; "b"]%string comparisons comparisons') as Hsame.
{ intros i j Hi Hj. unfold comparisons'.
  repeat (destruct i as [|i]; [|try (simpl in Hi; lia)]);
  repeat (destruct j as [|j]; [|try (simpl in Hj; lia)]);
  by rewrite lookup_insert_ne. }
split; [done|].
apply (only_pair_keys_are_read ["a"; "b"]%string comparisons comparisons' Hsame).
Defined.

(** The CO2 entry of the default profile and the value 500. *)
Lemma default_profile_is_optimal_range_witness :
  getDefaultProfile !! "co2"%string = Some (mkProfileEntry (Some 0) (Some 600)) /\
  0 <= 500 /\
  exists lo hi,
    mkProfileEntry (Some 0) (Some 600) = mkProfileEntry (Some lo) (Some hi) /\
    (isOptimal "co2" 500 = true <-> lo <= 500 <= hi).
Proof.
assert (getDefaultProfile !! "co2"%string
        = Some (mkProfileEntry (Some 0) (Some 600))) as Hentry
  by (by rewrite getDefaultProfile_lookup).
split; [done|]. split; [lra|].
apply (default_profile_is_optimal_range "co2" _ 500 Hentry ltac:(lra)).
Defined.

(** A CO2 level of 500 ppm. *)
Lemma optimal_value_is_rated_good_witness :
  own_property EU_STANDARDS "co2"
    = Some (standard 0 1000 0 600 (at_most 400) (at_most 600) (at_most 1000)) /\
  0 <= 500 /\
  isOptimal "co2" 500 = true /\
  (getCategory "co2" 500 = Normal "excellent"%string \/
   getCategory "co2" 500 = Normal "good"%string).
Proof.
assert (isOptimal "co2" 500 = true) as Hopt by decide_bounds.
split; [done|]. split; [lra|]. split; [done|].
apply (optimal_value_is_rated_good "co2" _ 500 eq_refl ltac:(lra) Hopt).
Defined.

(** A temperature of 22 degrees. *)
Lemma excellent_value_is_optimal_witness :
  own_property EU_STANDARDS "temperature"
    = Some (standard 18 26 20 24 (between 20 24) (between 19 25) (between 18 26)) /\
  0 <= 22 /\
  getCategory "temperature" 22 = Normal "excellent"%string /\
  isOptimal "temperature" 22 = true.
Proof.
assert (getCategory "temperature" 22 = Normal "excellent"%string) as Hcat
  by decide_bounds.
split; [done|]. split; [lra|]. split; [done|].
apply (excellent_value_is_optimal "temperature" _ 22 eq_refl ltac:(lra) Hcat).
Defined.

(** A noise level of 50 dBA. *)
Lemma poor_iff_outside_limits_witness :
  own_property EU_STANDARDS "noise"
    = Some (standard 0 45 0 35 (at_most 30) (at_most 35) (at_most 45)) /\
  0 <= 50 /\
  exists lo hi,
    Some 0 = Some lo /\ Some 45 = Some hi /\
    (getCategory "noise" 50 = Normal "poor"%string <-> 50 < lo \/ hi < 50).
Proof.
split; [done|]. split; [lra|].
apply (poor_iff_outside_limits "noise" _ 50 eq_refl ltac:(lra)).
Defined.

(** A criterion without a standard. *)
Lemma unlisted_criterion_witness :
  own_property EU_STANDARDS "pressure" = None /\
  isOptimal "pressure" 1013 = false /\
  getCategory "pressure" 1013 = Normal "unknown"%string.
Proof.
split; [done|].
apply (unlisted_criterion "pressure" 1013 eq_refl).
Defined.

(** A room with an optimal temperature as its only reading. *)
Lemma full_score_readings_are_optimal_witness :
  let room := Room.mk "R1" "Room 1" (Some 22) None None None 20 true 0 false in
  scoreRoom room = 1 /\ isOptimal "temperature" 22 = true.
Proof.
intros room.
assert (scoreRoom room = 1) as Hfull.
{ unfold scoreRoom, add_score, tempScore. simpl.
  rewrite (bool_decide_eq_true_2 (22 <> 0)) by lra. simpl.
  rewrite (bool_decide_eq_true_2 (20 <= 22)) by lra.
  rewrite (bool_decide_eq_true_2 (22 <= 24)) by lra. simpl. lra. }
split; [done|].
destruct (full_score_readings_are_optimal room Hfull) as (Ht & _).
apply Ht; [done|lra].
Defined.

(** One room and a random source that always returns a half. *)
Lemma ranking_scores_in_range_witness :
  let room := Room.mk "R1" "Room 1" (Some 22) None None None 20 true 0 false in
  let random := fun _ : nat => 1 / 2 in
  (forall k, 0 <= random k < 1) /\
  forall e, e ∈ Evaluation.rankings (evaluateRooms [room] random) ->
    0 <= Ranking.final_score e <= 1 /\
    0 <= Ranking.comfort_score e <= 1 /\
    0 <= Ranking.health_score e <= 1 /\
    (Ranking.usability_score e = 0.9 \/ Ranking.usability_score e = 0.6).
Proof.
intros room random.
assert (forall k, 0 <= random k < 1) as Hrandom by (intros k; unfold random; lra).
split; [done|].
apply (ranking_scores_in_range [room] random Hrandom).
Defined.
